(** * Revelex road search: the corridor engine of [jmc_rev_roadsearch.py]

    A shallow embedding of the pure part of the script: the corridor builder
    [create_buffer], the search envelope [global_area], the candidate
    normaliser [chosen_area], the per-candidate loop of [road_search] with its
    containment test, and the deduplication pass that ends [road_search].

    Numbers.  Python floats are read as the exact rationals they denote
    ([Qc], canonical fractions, so that Python's [==] on numbers is Leibniz
    equality).  Rounding error of float arithmetic is not part of the model,
    so the properties below are about what rounding leaves alone: which
    branch is taken, what is raised, and how the computed numbers are
    ordered.  The one place where Python has a value outside the rationals
    (the NaN bounds of an empty geometry) is made explicit with [option].

    Network.  The calls to the network are arguments of the functions that
    make them; a call either returns its decoded answer or raises. *)

From Stdlib Require Import QArith Qcanon Qround Lqa Lia Ascii.
From stdpp Require Import gmap strings list.

Local Open Scope Qc_scope.

(** ** Numbers *)

(** Moves a goal about the order of [Qc] to the same goal on [Q], where the
    arithmetic deciders work. *)
Ltac qc_to_q :=
  unfold Qcle, Qclt, Qcminus, Qcopp, Qcplus, Qcmult, Q2Qc in *;
  cbn [this] in *;
  repeat match goal with
  | H : context [Qred ?q] |- _ => rewrite (Qred_correct q) in H
  | |- context [Qred ?q] => rewrite (Qred_correct q)
  end.

(** Python's built-in [min] and [max] on two numbers. *)
Definition qmin (a b : Qc) : Qc := if decide (a ≤ b) then a else b.
Definition qmax (a b : Qc) : Qc := if decide (a ≤ b) then b else a.

(** [int(x)]: truncation towards zero. *)
Definition int (x : Qc) : Z := Z.quot (Qnum x) (Z.pos (Qden x)).

(** [round(x)] to an integer: Python rounds halves to the even neighbour. *)
Definition round_half_even (x : Qc) : Z :=
  let f := Qfloor x in
  let r := x - Q2Qc (inject_Z f) in
  if decide (r < Q2Qc (1 # 2)) then f
  else if decide (Q2Qc (1 # 2) < r) then (f + 1)%Z
  else if Z.even f then f else (f + 1)%Z.

(** [round(x, ndigits)]: the decimal with [ndigits] places nearest to [x]. *)
Definition round (x : Qc) (ndigits : nat) : Qc :=
  let scale := (10 ^ Z.of_nat ndigits)%Z in
  Q2Qc (inject_Z (round_half_even (x * Q2Qc (inject_Z scale)))) / Q2Qc (inject_Z scale).

(** ** Python values, exceptions and results *)

(** The values a record of the script holds: text, a number, or [None]. *)
Inductive pyval :=
| VNone
| VStr (s : string)
| VNum (x : Qc).

Global Instance pyval_eq_dec : EqDecision pyval.
Proof. solve_decision. Defined.

Global Instance pyval_countable : Countable pyval.
Proof.
  refine (inj_countable'
    (λ v, match v with
          | VNone => inl ()
          | VStr s => inr (inl s)
          | VNum x => inr (inr x)
          end)
    (λ c, match c with
          | inl _ => VNone
          | inr (inl s) => VStr s
          | inr (inr x) => VNum x
          end) _).
  by intros [].
Defined.

(** A Python [dict] with text keys. *)
Abbreviation pydict := (gmap string pyval).

(** The exceptions the modelled code can raise: Python's own, the geometry
    library's ([GEOSException]), the projection library's ([CRSError]) and
    those of a network call ([RequestException] when the request fails,
    [JSONDecodeError] when the body is not JSON). *)
Inductive exn :=
| IndexError
| KeyError (key : string)
| TypeError
| ValueError
| AttributeError
| GEOSException
| CRSError
| RequestException
| JSONDecodeError.

(** The outcome of a call: a value, or a raised exception. *)
Inductive result (A : Type) :=
| Ok (a : A)
| Raise (e : exn).
Arguments Ok {A} a.
Arguments Raise {A} e.

Global Instance exn_eq_dec : EqDecision exn.
Proof. solve_decision. Defined.

Global Instance result_eq_dec `{EqDecision A} : EqDecision (result A).
Proof. solve_decision. Defined.

Global Instance result_ret : MRet result := @Ok.
Global Instance result_bind : MBind result :=
  λ A B f m, match m with Ok a => f a | Raise e => Raise e end.

(** Reads a key of a dictionary written as a list of entries. *)
Ltac dict_lookup :=
  repeat first
    [ rewrite lookup_insert_eq
    | rewrite lookup_insert_ne by done ].

(** [d[key]] *)
Definition getitem (d : pydict) (key : string) : result pyval :=
  match d !! key with
  | Some v => Ok v
  | None => Raise (KeyError key)
  end.

(** [float(v)].  Coordinates reach the script as JSON numbers; the parsing of
    numeric text that [float] also offers is outside the model. *)
Definition float (v : pyval) : result Qc :=
  match v with
  | VNum x => Ok x
  | VStr _ => Raise ValueError
  | VNone => Raise TypeError
  end.

(** ** Geometry *)

(** A coordinate tuple [(x, y)]: longitude then latitude in geographic space. *)
Abbreviation coord := (Qc * Qc)%type.

(** A shapely [Polygon]: the exterior ring and the rings of its holes, each a
    closed sequence of vertices.  The empty polygon has no vertex. *)
Record Polygon := {
  exterior : list coord;
  interiors : list (list coord)
}.

(** [geom.bounds], the tuple [(minx, miny, maxx, maxy)] of the envelope, which
    for a polygon is the envelope of its exterior ring.  [None] stands for the
    tuple of four NaN that an empty geometry has. *)
Definition bounds (geom : Polygon) : option (Qc * Qc * Qc * Qc) :=
  match exterior geom with
  | [] => None
  | (x, y) :: cs =>
      Some (foldr qmin x cs.*1, foldr qmin y cs.*2,
            foldr qmax x cs.*1, foldr qmax y cs.*2)
  end.

(** ** [global_area] *)

(** The search envelope [(south, west, north, east)].  Arithmetic on NaN gives
    NaN, so on an empty geometry all four components are NaN ([None]). *)
Definition global_area (geom : Polygon) (expand_factor : Qc)
  : option (Qc * Qc * Qc * Qc) :=
  '(minx, miny, maxx, maxy) ← bounds geom;
  let dx := maxx - minx in
  let dy := maxy - miny in
  let padx := dx * expand_factor + Q2Qc (1 # 100) in
  let pady := dy * expand_factor + Q2Qc (1 # 100) in
  Some (miny - pady, minx - padx, maxy + pady, maxx + padx).

(** The area enclosed by an envelope [(south, west, north, east)]. *)
Definition envelope_area (bbox : Qc * Qc * Qc * Qc) : Qc :=
  let '(s, w, n, e) := bbox in (n - s) * (e - w).

(** A side of the envelope as a function of the extent of the bounds: the
    extent scaled by [1 + 2 * expand_factor], plus 0.02. *)
Definition side (extent expand_factor : Qc) : Qc :=
  extent * (1 + 2 * expand_factor) + Q2Qc (2 # 100).

(** ** The containment test

    [pt.within(buff_geom)] is shapely's predicate: true when the point lies in
    the interior of the polygon, false when it lies on the boundary or in the
    exterior (the DE-9IM pattern of "within": the interiors meet and nothing of
    the point is in the exterior; a point on the boundary does not meet the
    interior).  The point is located with exact arithmetic on the coordinates,
    ring by ring, as the geometry engine does. *)

Inductive location := INTERIOR | BOUNDARY | EXTERIOR.

Global Instance location_eq_dec : EqDecision location.
Proof. solve_decision. Defined.

(** The segments of a ring: each vertex joined to the next. *)
Definition segments (ring : list coord) : list (coord * coord) :=
  zip ring (drop 1 ring).

(** Twice the signed area of the triangle [a b p]; zero when collinear. *)
Definition orientation (a b p : coord) : Qc :=
  (b.1 - a.1) * (p.2 - a.2) - (b.2 - a.2) * (p.1 - a.1).

(** [p] lies on the closed segment from [a] to [b]. *)
Definition on_segment (p : coord) (s : coord * coord) : bool :=
  let '(a, b) := s in
  bool_decide (orientation a b p = 0)
  && bool_decide (qmin a.1 b.1 ≤ p.1) && bool_decide (p.1 ≤ qmax a.1 b.1)
  && bool_decide (qmin a.2 b.2 ≤ p.2) && bool_decide (p.2 ≤ qmax a.2 b.2).

(** The ray from [p] towards increasing x crosses the segment; a vertex at the
    height of [p] counts for the segment that leaves it upwards. *)
Definition crosses_ray (p : coord) (s : coord * coord) : bool :=
  let '(a, b) := s in
  negb (bool_decide (bool_decide (p.2 < a.2) = bool_decide (p.2 < b.2)))
  && bool_decide (p.1 < a.1 + (p.2 - a.2) * (b.1 - a.1) / (b.2 - a.2)).

Definition locate_in_ring (p : coord) (ring : list coord) : location :=
  if existsb (on_segment p) (segments ring) then BOUNDARY
  else if Nat.odd (length (filter (λ s, crosses_ray p s = true) (segments ring)))
       then INTERIOR
       else EXTERIOR.

(** The holes are visited in order: on the boundary of a hole is on the
    boundary of the polygon, inside a hole is outside the polygon. *)
Fixpoint locate_in_holes (p : coord) (holes : list (list coord)) : location :=
  match holes with
  | [] => INTERIOR
  | hole :: holes' =>
      match locate_in_ring p hole with
      | BOUNDARY => BOUNDARY
      | INTERIOR => EXTERIOR
      | EXTERIOR => locate_in_holes p holes'
      end
  end.

Definition locate (p : coord) (geom : Polygon) : location :=
  match locate_in_ring p (exterior geom) with
  | INTERIOR => locate_in_holes p (interiors geom)
  | shell_loc => shell_loc
  end.

Definition within (pt : coord) (geom : Polygon) : bool :=
  bool_decide (locate pt geom = INTERIOR).

(** [p] lies on an edge of the exterior ring or of a hole. *)
Definition on_boundary (p : coord) (geom : Polygon) : bool :=
  existsb (λ ring, existsb (on_segment p) (segments ring))
          (exterior geom :: interiors geom).

(** ** [create_buffer]

    The numerical kernels that [create_buffer] calls (the transverse Mercator
    formulas of pyproj, the offset curves of the geometry engine) are kept
    uninterpreted: a geometry value records the operations that produced it.
    What is modelled is the control flow of [create_buffer] and the conditions
    under which the library calls raise. *)

Inductive transformer :=
| trans_to_utm (utm_zone : Z)
| trans_to_wgs (utm_zone : Z).

Inductive geometry :=
| LineStringOf (coords : list coord)
| Transformed (func : transformer) (geom : geometry)
| Buffered (geom : geometry) (distance : Qc).

(** [LineString(coords)]: no coordinate gives the empty line, one coordinate
    is refused, two or more are accepted whether distinct or not. *)
Definition LineString (coords : list coord) : result geometry :=
  match coords with
  | [_] => Raise GEOSException
  | _ => Ok (LineStringOf coords)
  end.

(** [seq[i]] *)
Definition index {A} (seq : list A) (i : nat) : result A :=
  match seq !! i with
  | Some a => Ok a
  | None => Raise IndexError
  end.

(** [CRS.from_proj4("+proj=utm +zone=... +datum=WGS84 ...")] and the two
    transformers made from it: the projection library has UTM zones 1 to 60
    and refuses any other number as an invalid projection.  The coordinate
    system is represented by its zone. *)
Definition utm_crs_of_zone (utm_zone : Z) : result Z :=
  if decide (1 ≤ utm_zone ≤ 60)%Z then Ok utm_zone else Raise CRSError.

(** [transform(func, geom)] and [geom.buffer(distance)] return a geometry for
    every argument; a distance that is zero or negative is no error for
    [buffer] (the buffer of a line is then the empty polygon). *)
Definition transform (func : transformer) (geom : geometry) : geometry :=
  Transformed func geom.
Definition buffer (geom : geometry) (distance : Qc) : geometry :=
  Buffered geom distance.

(** The zone number computed from a longitude: [int((lon + 180) / 6) + 1]. *)
Definition utm_zone_of (lon : Qc) : Z :=
  (int ((lon + Q2Qc 180) / Q2Qc 6) + 1)%Z.

Definition create_buffer (gpsx : list coord) (buffer_m : Qc) : result geometry :=
  seg ← LineString gpsx;
  first ← index gpsx 0;
  let utm_zone := utm_zone_of first.1 in
  utm_crs ← utm_crs_of_zone utm_zone;
  let seg_m := transform (trans_to_utm utm_crs) seg in
  let buff_mpoly := buffer seg_m buffer_m in
  let buff_wgs := transform (trans_to_wgs utm_crs) buff_mpoly in
  Ok buff_wgs.

(** ** Candidate elements and [chosen_area] *)

(** An element of the place lookup's answer, a JSON object read through the
    keys ["type"], ["lat"], ["lon"], ["center"] and ["tags"].  A key that is
    missing (or null) is [None]; coordinates are JSON numbers and tag values
    are text. *)
Record element := {
  elem_type : string;
  elem_lat : option Qc;
  elem_lon : option Qc;
  elem_center : option (gmap string Qc);
  elem_tags : option (gmap string string)
}.

(** [a or b] where [a] is text or [None]: [a] when it is non-empty text. *)
Definition or_text (a : option string) (b : string) : string :=
  match a with
  | Some (String _ _ as s) => s
  | _ => b
  end.

(** A number that may be [None], as a record value. *)
Definition number (x : option Qc) : pyval := from_option VNum VNone x.

(** [None] is Python's [None]: the element has no usable position. *)
Definition chosen_area (elem : element) : option pydict :=
  '(lat, lon) ←
    (if decide (elem_type elem = "node") then
       Some (elem_lat elem, elem_lon elem)
     else
       match elem_center elem with
       | Some center =>
           if decide (center = ∅) then None
           else Some (center !! "lat", center !! "lon")
       | None => None
       end);
  let tags := default ∅ (elem_tags elem) in
  let name := or_text (tags !! "name") (or_text (tags !! "name:en") "") in
  let name_ascii := or_text (tags !! "name:ascii") name in
  let name_en := or_text (tags !! "name:en") name in
  let place_tag := default "town" (tags !! "place") in
  Some (list_to_map [
    ("placename", VStr name);
    ("placename_ascii", VStr name_ascii);
    ("placename_en", VStr name_en);
    ("placetag", VStr place_tag);
    ("latitude", number lat);
    ("longitude", number lon)
  ]).

(** ** [set_state_country] *)

(** The region lookup is a network call: [reverse_geocode lat lon] either
    raises (the request fails, the body is not JSON, the answer is not an
    object) or returns; a returned answer is represented by its ["address"]
    object (empty when the answer has none), a mapping from text to text. *)
Definition geocoder := pyval → pyval → result (gmap string string).

(** [a or b] where both may be [None] and the value may stay [None]. *)
Definition or_none (a b : option string) : option string :=
  match a with
  | Some (String _ _) => a
  | _ => b
  end.

Definition set_state_country (reverse_geocode : geocoder) (lat lon : pyval)
  : result (option string * option string) :=
  addr ← reverse_geocode lat lon;
  let state :=
    or_none (or_none (addr !! "state") (addr !! "province"))
            (addr !! "state_district") in
  let country := addr !! "country" in
  Ok (state, country).

(** ** [road_search]: the loop over the candidates *)

(** [Point(x, y)] converts both arguments to floats. *)
Definition Point (x y : pyval) : result coord :=
  x' ← float x; y' ← float y; Ok (x', y').

(** One pass through the body of the loop: [Some result] when a result is
    appended, [None] when the body ends in [continue]. *)
Definition visit (reverse_geocode : geocoder) (roadway_name : string)
    (buff_geom : Polygon) (e : element) : result (option pydict) :=
  match chosen_area e with
  | None => Ok None
  | Some place =>
      if decide (place = ∅) then Ok None
      else
        lon ← getitem place "longitude";
        lat ← getitem place "latitude";
        pt ← Point lon lat;
        if negb (within pt buff_geom) then Ok None
        else
          '(state, country) ← set_state_country reverse_geocode lat lon;
          placename ← getitem place "placename";
          placename_ascii ← getitem place "placename_ascii";
          placename_en ← getitem place "placename_en";
          placetag ← getitem place "placetag";
          Ok (Some (list_to_map [
            ("roadway", VStr roadway_name);
            ("placename", placename);
            ("placename_ascii", placename_ascii);
            ("placename_en", placename_en);
            ("placetag", placetag);
            ("latitude", lat);
            ("longitude", lon);
            ("state/province", VStr (or_text state ""));
            ("state/province-ascii", VStr (or_text state ""));
            ("country", VStr (or_text country ""))
          ]))
  end.

(** The loop [for e in elements], with the list [results] it appends to. *)
Fixpoint collect (reverse_geocode : geocoder) (roadway_name : string)
    (buff_geom : Polygon) (elements : list element) (results : list pydict)
  : result (list pydict) :=
  match elements with
  | [] => Ok results
  | e :: elements' =>
      r ← visit reverse_geocode roadway_name buff_geom e;
      collect reverse_geocode roadway_name buff_geom elements'
        (match r with Some result => results ++ [result] | None => results end)
  end.

(** ** [road_search]: the deduplication pass *)

(** The key of a record: its name and its position rounded to 6 places. *)
Definition record_key (r : pydict) : result (pyval * Qc * Qc) :=
  name ← getitem r "placename";
  lat ← getitem r "latitude" ≫= float;
  lon ← getitem r "longitude" ≫= float;
  Ok (name, round lat 6, round lon 6).

(** The loop [for r in results], with the set [found] and the list [deduped]
    it updates. *)
Fixpoint dedupe_loop (results : list pydict) (found : gset (pyval * Qc * Qc))
    (deduped : list pydict) : result (list pydict) :=
  match results with
  | [] => Ok deduped
  | r :: results' =>
      key ← record_key r;
      if decide (key ∈ found) then dedupe_loop results' found deduped
      else dedupe_loop results' ({[key]} ∪ found) (deduped ++ [r])
  end.

(** The pass that ends [road_search], from [found = set()] to
    [return deduped]; the specification calls it [dedupe]. *)
Definition dedupe (results : list pydict) : result (list pydict) :=
  dedupe_loop results ∅ [].

(** The deduplication as the specification words it: the record at position
    [i] is kept exactly when no record before position [i] bears its key. *)
Definition first_occurrences (results : list pydict) : list pydict :=
  (filter (λ ir, record_key ir.2 ∉ record_key <$> take ir.1 results)
          (imap pair results)).*2.

(** [road_search] from the loop over [elements] on.  The lines before it ask
    the network for the roadway trace and for [elements], and the geometry
    libraries for [buff_geom]; their answers are the arguments here. *)
Definition road_search (reverse_geocode : geocoder) (roadway_name : string)
    (buff_geom : Polygon) (elements : list element) : result (list pydict) :=
  results ← collect reverse_geocode roadway_name buff_geom elements [];
  dedupe results.

(** ** [find_roadway]: reading the answer *)

(** An element of the roadway lookup's answer, read through its ["geometry"]
    key: [None] when the element has no such key, else the points of the
    geometry, each an object with numbers under ["lat"] and ["lon"]. *)
Abbreviation way := (option (list (gmap string Qc))).

(** [(pt["lon"], pt["lat"])] *)
Definition point_coord (pt : gmap string Qc) : result coord :=
  match pt !! "lon" with
  | None => Raise (KeyError "lon")
  | Some lon =>
      match pt !! "lat" with
      | None => Raise (KeyError "lat")
      | Some lat => Ok (lon, lat)
      end
  end.

(** The list [[(pt["lon"], pt["lat"]) for pt in e["geometry"]]]. *)
Fixpoint geometry_coords (geometry : list (gmap string Qc)) : result (list coord) :=
  match geometry with
  | [] => Ok []
  | pt :: geometry' =>
      c ← point_coord pt;
      cs ← geometry_coords geometry';
      Ok (c :: cs)
  end.

(** The loop [for e in data.get("elements", [])], with the list [gpsx] it
    extends. *)
Fixpoint find_roadway_loop (elements : list way) (gpsx : list coord)
  : result (list coord) :=
  match elements with
  | [] => Ok gpsx
  | Some geometry :: elements' =>
      cs ← geometry_coords geometry;
      find_roadway_loop elements' (gpsx ++ cs)
  | None :: elements' => find_roadway_loop elements' gpsx
  end.

(** [find_roadway] from the decoded answer on; [elements] is
    [data.get("elements", [])]. *)
Definition find_roadway (elements : list way) : result (list coord) :=
  find_roadway_loop elements [].

(** [road_search] from the roadway answer to the corridor: the trace is read,
    an empty trace is refused, and the corridor is built. *)
Definition road_search_corridor (elements : list way) (buffer_m : Qc)
  : result geometry :=
  gpsx ← find_roadway elements;
  if decide (gpsx = []) then Raise ValueError
  else create_buffer gpsx buffer_m.

(** ** [reverse_geocode] *)

(** The response of [requests.get]: its status code and what reading the
    body gives, the ["address"] object of the decoded body when it has one,
    or the exception raised when the body cannot be decoded or is not an
    object. *)
Record response := {
  res_status : Z;
  res_json : result (option (gmap string string))
}.

(** [reverse_geocode] over the network call [http_get lat lon], which raises
    when the request fails: any status but 200 counts as an empty answer, and
    the body is decoded only for status 200. *)
Definition reverse_geocode (http_get : pyval → pyval → result response)
  : geocoder :=
  λ lat lon,
    res ← http_get lat lon;
    if decide (res_status res ≠ 200%Z) then Ok ∅
    else address ← res_json res; Ok (default ∅ address).

(** ** [set_city] *)

(** [float(v)] where text is converted by [text_to_float], which stands for
    Python's reading of numeric text ([None] where Python raises). *)
Definition float_of (text_to_float : string → option Qc) (v : pyval) : result Qc :=
  match v with
  | VNum x => Ok x
  | VStr s =>
      match text_to_float s with
      | Some x => Ok x
      | None => Raise ValueError
      end
  | VNone => Raise TypeError
  end.

(** [set_city] from the answer of the place search on: its status code and
    the decoded list of results.  The returned box is
    [(south, west, north, east)]. *)
Definition set_city (text_to_float : string → option Qc)
    (status_code : Z) (answer : list pydict) : result (Qc * Qc * Qc * Qc) :=
  if decide (status_code ≠ 200%Z ∨ answer = []) then Raise ValueError
  else
    result ← index answer 0;
    lat ← getitem result "lat" ≫= float_of text_to_float;
    lon ← getitem result "lon" ≫= float_of text_to_float;
    let bbox_size := Q2Qc (45 # 100) in
    Ok (lat - bbox_size, lon - bbox_size, lat + bbox_size, lon + bbox_size).

(** ** The name of the output file *)

(** [s.replace(old, new)] for one-character [old] and [new]. *)
Fixpoint replace (old new : ascii) (s : string) : string :=
  match s with
  | EmptyString => EmptyString
  | String c s' =>
      String (if decide (c = old) then new else c) (replace old new s')
  end.

(** The [filename] of the main block. *)
Definition filename (roadway city state : string) : string :=
  replace " "%char "_"%char roadway +:+ "_"
  +:+ replace " "%char "_"%char city +:+ "_"
  +:+ replace " "%char "_"%char state +:+ ".json".

(** ** Rings *)

(** A ring is closed when it ends at the vertex it starts from, as the rings
    of a polygon do. *)
Definition closed_ring (ring : list coord) : Prop := head ring = last ring.

(** The vertex [v] is above the height of [p]. *)
Definition above (p v : coord) : bool := bool_decide (p.2 < v.2).

(** The ends of the segment are on different sides of the height of [p]. *)
Definition straddles (p : coord) (s : coord * coord) : bool :=
  let '(a, b) := s in negb (bool_decide (above p a = above p b)).

(** ** Records without their region *)

(** A record without the three fields that the region lookup fills. *)
Definition without_region (r : pydict) : pydict :=
  delete "country" (delete "state/province-ascii" (delete "state/province" r)).

(** ** Rectangular corridors *)

(** The rectangle with corners [(x0, y0)] and [(x1, y1)]. *)
Definition box (x0 y0 x1 y1 : Qc) : Polygon := {|
  exterior := [(x0, y0); (x1, y0); (x1, y1); (x0, y1); (x0, y0)];
  interiors := []
|}.

(** The same rectangle with the rectangular hole from [(hx0, hy0)] to
    [(hx1, hy1)]. *)
Definition frame (x0 y0 x1 y1 hx0 hy0 hx1 hy1 : Qc) : Polygon := {|
  exterior := exterior (box x0 y0 x1 y1);
  interiors := [exterior (box hx0 hy0 hx1 hy1)]
|}.

(** ** The key as the specification words it *)

(** [k] is the integer nearest to [x], and the even one of the two nearest
    when [x] is halfway between two integers. *)
Definition nearest_integer (x : Qc) (k : Z) : Prop :=
  let d := x - Q2Qc (inject_Z k) in
  (- Q2Qc (1 # 2) < d ∧ d < Q2Qc (1 # 2))
  ∨ ((d = Q2Qc (1 # 2) ∨ d = - Q2Qc (1 # 2)) ∧ Z.even k = true).

(** [q] is [x] rounded to [ndigits] decimal places: the integer nearest to
    [x * 10 ^ ndigits], divided by [10 ^ ndigits]. *)
Definition rounded_to (ndigits : nat) (x q : Qc) : Prop :=
  ∃ k, nearest_integer (x * Q2Qc (inject_Z (10 ^ Z.of_nat ndigits))) k ∧
       q = Q2Qc (inject_Z k) / Q2Qc (inject_Z (10 ^ Z.of_nat ndigits)).

(** A record with the fields the key is made of: a name, and numbers as
    latitude and longitude. *)
Definition key_fields (r : pydict) (name : pyval) (lat lon : Qc) : Prop :=
  r !! "placename" = Some name ∧
  r !! "latitude" = Some (VNum lat) ∧
  r !! "longitude" = Some (VNum lon).

(** Two records bear the same key: the same name, and latitudes and
    longitudes that are the same once rounded to 6 decimal places. *)
Definition same_key (r1 r2 : pydict) : Prop :=
  ∃ name lat1 lon1 lat2 lon2 lat6 lon6,
    key_fields r1 name lat1 lon1 ∧ key_fields r2 name lat2 lon2 ∧
    rounded_to 6 lat1 lat6 ∧ rounded_to 6 lat2 lat6 ∧
    rounded_to 6 lon1 lon6 ∧ rounded_to 6 lon2 lon6.

(** ** Elements with numeric coordinates *)

(** An element has numbers wherever [chosen_area] reads a coordinate: a node
    under ["lon"] and ["lat"], another element in its centre, when it has
    one that is not empty. *)
Definition numbered (e : element) : Prop :=
  (elem_type e = "node" → is_Some (elem_lon e) ∧ is_Some (elem_lat e)) ∧
  (∀ center,
     elem_type e ≠ "node" → elem_center e = Some center → center ≠ ∅ →
     is_Some (center !! "lon") ∧ is_Some (center !! "lat")).

(** ** Region lookups that fail alike *)

(** Two region lookups fail alike when at every position both answer or both
    raise the same exception. *)
Definition fail_alike (g1 g2 : geocoder) : Prop :=
  ∀ lat lon,
    match g1 lat lon, g2 lat lon with
    | Ok _, Ok _ => True
    | Raise err1, Raise err2 => err1 = err2
    | _, _ => False
    end.

(** ** Inputs used by the examples below *)

(** A decimal number [n / d]. *)
Definition dec (n : Z) (d : positive) : Qc := Q2Qc (n # d).

(** The square with corners (0, 0) and (4, 4). *)
Definition square : Polygon := {|
  exterior := [(dec 0 1, dec 0 1); (dec 4 1, dec 0 1); (dec 4 1, dec 4 1);
               (dec 0 1, dec 4 1); (dec 0 1, dec 0 1)];
  interiors := []
|}.

(** The same square with the square hole from (1, 1) to (3, 3). *)
Definition square_with_hole : Polygon := {|
  exterior := exterior square;
  interiors := [[(dec 1 1, dec 1 1); (dec 1 1, dec 3 1); (dec 3 1, dec 3 1);
                 (dec 3 1, dec 1 1); (dec 1 1, dec 1 1)]]
|}.

(** The empty polygon, which is what the buffer of a line is at a distance
    that is not positive. *)
Definition empty_polygon : Polygon := {| exterior := []; interiors := [] |}.

(** A corridor shrunk to the single point (-80.19, 25.76). *)
Definition point_corridor : Polygon := {|
  exterior := replicate 4 (dec (-8019) 100, dec 2576 100);
  interiors := []
|}.

(** The trace of the spec's scenario, and a trace of two identical points. *)
Definition miami_trace : list coord :=
  [(dec (-8019) 100, dec 2576 100); (dec (-8020) 100, dec 2580 100)].
Definition stalled_trace : list coord :=
  [(dec (-8019) 100, dec 2576 100); (dec (-8019) 100, dec 2576 100)].

(** A region lookup that answers Florida everywhere. *)
Definition florida : geocoder :=
  λ _ _, Ok {[ "state" := "Florida"; "country" := "United States" ]}.

(** A node named Miami at longitude [lon] and latitude [lat], without a
    ["place"] tag. *)
Definition miami_node (lon lat : Qc) : element := {|
  elem_type := "node";
  elem_lat := Some lat;
  elem_lon := Some lon;
  elem_center := None;
  elem_tags := Some {[ "name" := "Miami" ]}
|}.

(** A way tagged as the city of Miami, with centre at [lon], [lat]. *)
Definition miami_way (lon lat : Qc) : element := {|
  elem_type := "way";
  elem_lat := None;
  elem_lon := None;
  elem_center := Some {[ "lat" := lat; "lon" := lon ]};
  elem_tags := Some {[ "name" := "Miami"; "place" := "city" ]}
|}.

(** What [chosen_area] makes of [miami_node lon lat]. *)
Definition miami_place (lon lat : Qc) : pydict :=
  list_to_map [
    ("placename", VStr "Miami");
    ("placename_ascii", VStr "Miami");
    ("placename_en", VStr "Miami");
    ("placetag", VStr "town");
    ("latitude", VNum lat);
    ("longitude", VNum lon)
  ].

(** The record [road_search] emits for [miami_node lon lat] on roadway I 95
    with the lookup [florida]. *)
Definition miami_record (lon lat : Qc) : pydict :=
  list_to_map [
    ("roadway", VStr "I 95");
    ("placename", VStr "Miami");
    ("placename_ascii", VStr "Miami");
    ("placename_en", VStr "Miami");
    ("placetag", VStr "town");
    ("latitude", VNum lat);
    ("longitude", VNum lon);
    ("state/province", VStr "Florida");
    ("state/province-ascii", VStr "Florida");
    ("country", VStr "United States")
  ].

(** Three records named Miami: the third has the position of the first up
    to the seventh decimal place of its latitude. *)
Definition miami_results : list pydict :=
  [miami_record (dec 2 1) (dec 2 1);
   miami_record (dec 3 1) (dec 2 1);
   miami_record (dec 2 1) (dec 20000001 10000000)].

(** A node that has neither coordinates nor tags. *)
Definition bare_node : element := {|
  elem_type := "node";
  elem_lat := None;
  elem_lon := None;
  elem_center := None;
  elem_tags := None
|}.

(** A point of a way's geometry. *)
Definition geometry_point (lon lat : Qc) : gmap string Qc :=
  {[ "lat" := lat; "lon" := lon ]}.

(** An answer of the roadway lookup: a relation without geometry and two ways,
    the second joining the first. *)
Definition miami_ways : list way :=
  [None;
   Some [geometry_point (dec (-8019) 100) (dec 2576 100);
         geometry_point (dec (-8020) 100) (dec 2580 100)];
   Some [geometry_point (dec (-8020) 100) (dec 2580 100);
         geometry_point (dec (-8021) 100) (dec 2585 100)]].

(** A region lookup whose every call is answered with status 503 and a body
    that is not JSON. *)
Definition unavailable : pyval → pyval → result response :=
  λ _ _, Ok {| res_status := 503; res_json := Raise JSONDecodeError |}.

(** A region lookup whose every request fails. *)
Definition offline : geocoder := λ _ _, Raise RequestException.

(** A region lookup that answers everywhere with an empty address. *)
Definition nowhere : geocoder := λ _ _, Ok ∅.

(** The reading of the two numerals of the place search's answer for Miami;
    other text is refused. *)
Definition miami_numerals (s : string) : option Qc :=
  if decide (s = "25.7741728") then Some (dec 257741728 10000000)
  else if decide (s = "-80.19362") then Some (dec (-8019362) 100000)
  else None.

(** The answer of the place search for Miami: coordinates come as text. *)
Definition miami_answer : list pydict :=
  [ {[ "lat" := VStr "25.7741728"; "lon" := VStr "-80.19362";
       "name" := VStr "Miami" ]} ].

(** * Properties *)

(** ** Numbers *)

(** Equality of canonical fractions is equality of the fractions. *)
Lemma Qc_eq_Q (x y : Qc) : x = y ↔ (this x == this y)%Q.
Proof. split; [by intros ->|apply Qc_is_canon]. Qed.

(** Decides a goal about the order of numbers, [qmin] and [qmax]. *)
Ltac qc_order :=
  unfold qmin, qmax in *; repeat case_decide;
  rewrite ?Qc_eq_Q in *; qc_to_q; lra.

(** ** The search envelope *)

Section envelope.
Implicit Types (geom : Polygon) (x y : Qc).

Lemma qmin_le_l a b : qmin a b ≤ a.
Proof. unfold qmin. case_decide; qc_to_q; lra. Qed.

Lemma qmin_le_r a b : qmin a b ≤ b.
Proof. unfold qmin. case_decide; qc_to_q; lra. Qed.

Lemma qmax_ge_l a b : a ≤ qmax a b.
Proof. unfold qmax. case_decide; qc_to_q; lra. Qed.

Lemma qmax_ge_r a b : b ≤ qmax a b.
Proof. unfold qmax. case_decide; qc_to_q; lra. Qed.

Lemma foldr_qmin_le x (l : list Qc) a : a ∈ x :: l → foldr qmin x l ≤ a.
Proof.
  induction l as [|b l IH]; intros Ha; simpl.
  - apply list_elem_of_singleton in Ha as ->. apply Qcle_refl.
  - apply elem_of_cons in Ha as [->|Ha].
    + eapply Qcle_trans; [apply qmin_le_r|]. apply IH. left.
    + apply elem_of_cons in Ha as [->|Ha]; [apply qmin_le_l|].
      eapply Qcle_trans; [apply qmin_le_r|]. apply IH. by right.
Qed.

Lemma foldr_qmax_ge x (l : list Qc) a : a ∈ x :: l → a ≤ foldr qmax x l.
Proof.
  induction l as [|b l IH]; intros Ha; simpl.
  - apply list_elem_of_singleton in Ha as ->. apply Qcle_refl.
  - apply elem_of_cons in Ha as [->|Ha].
    + eapply Qcle_trans; [|apply qmax_ge_r]. apply IH. left.
    + apply elem_of_cons in Ha as [->|Ha]; [apply qmax_ge_l|].
      eapply Qcle_trans; [|apply qmax_ge_r]. apply IH. by right.
Qed.

(** A polygon with a vertex has bounds, and they enclose every vertex of
    the exterior ring. *)
Lemma bounds_nonempty geom :
  exterior geom ≠ [] → is_Some (bounds geom).
Proof.
  unfold bounds. destruct (exterior geom) as [|[x y] cs]; [done|]. eauto.
Qed.

Lemma bounds_enclose geom minx miny maxx maxy x y :
  bounds geom = Some (minx, miny, maxx, maxy) →
  (x, y) ∈ exterior geom →
  minx ≤ x ∧ x ≤ maxx ∧ miny ≤ y ∧ y ≤ maxy.
Proof.
  unfold bounds. destruct (exterior geom) as [|[x0 y0] cs]; [done|].
  intros [= <- <- <- <-] Hin.
  assert (x ∈ x0 :: cs.*1) as Hx.
  { change (x ∈ ((x0, y0) :: cs).*1). apply list_elem_of_fmap. by exists (x, y). }
  assert (y ∈ y0 :: cs.*2) as Hy.
  { change (y ∈ ((x0, y0) :: cs).*2). apply list_elem_of_fmap. by exists (x, y). }
  auto using foldr_qmin_le, foldr_qmax_ge.
Qed.

Lemma bounds_ordered geom minx miny maxx maxy :
  bounds geom = Some (minx, miny, maxx, maxy) → minx ≤ maxx ∧ miny ≤ maxy.
Proof.
  intros Hb. pose proof Hb as Hb'. unfold bounds in Hb'.
  destruct (exterior geom) as [|[x0 y0] cs] eqn:Hext; [done|].
  destruct (bounds_enclose geom minx miny maxx maxy x0 y0 Hb) as (?&?&?&?).
  { rewrite Hext. left. }
  split; eapply Qcle_trans; eauto.
Qed.

(** [global_area] written out on the bounds of the geometry. *)
Lemma global_area_unfold geom expand_factor minx miny maxx maxy :
  bounds geom = Some (minx, miny, maxx, maxy) →
  global_area geom expand_factor =
    Some (miny - ((maxy - miny) * expand_factor + Q2Qc (1 # 100)),
          minx - ((maxx - minx) * expand_factor + Q2Qc (1 # 100)),
          maxy + ((maxy - miny) * expand_factor + Q2Qc (1 # 100)),
          maxx + ((maxx - minx) * expand_factor + Q2Qc (1 # 100))).
Proof. intros Hb. unfold global_area. by rewrite Hb. Qed.
End envelope.

(** C9, amended. For a geometry with at least one vertex and a factor that is
    not negative, [global_area] returns the bounds moved outwards, in each
    dimension, by [extent * expand_factor + 0.01]; every vertex of the
    exterior ring, and so the whole corridor, lies in the envelope, and the
    envelope has positive extent in both dimensions, also when the bounds
    have none.  The empty polygon is left out: it has no bounds. *)
Theorem global_area_pads_and_contains (geom : Polygon) (expand_factor : Qc) :
  exterior geom ≠ [] →
  0 ≤ expand_factor →
  ∃ minx miny maxx maxy s w n e,
    bounds geom = Some (minx, miny, maxx, maxy) ∧
    global_area geom expand_factor = Some (s, w, n, e) ∧
    s = miny - ((maxy - miny) * expand_factor + Q2Qc (1 # 100)) ∧
    w = minx - ((maxx - minx) * expand_factor + Q2Qc (1 # 100)) ∧
    n = maxy + ((maxy - miny) * expand_factor + Q2Qc (1 # 100)) ∧
    e = maxx + ((maxx - minx) * expand_factor + Q2Qc (1 # 100)) ∧
    (∀ x y, (x, y) ∈ exterior geom → w < x ∧ x < e ∧ s < y ∧ y < n) ∧
    s < n ∧ w < e.
Proof.
  intros Hne Hef.
  destruct (bounds_nonempty geom Hne) as [[[[minx miny] maxx] maxy] Hb].
  destruct (bounds_ordered _ _ _ _ _ Hb) as [Hx Hy].
  eexists minx, miny, maxx, maxy, _, _, _, _.
  split; [done|]. split; [by apply global_area_unfold|].
  do 4 (split; [reflexivity|]).
  split.
  - intros x y Hin.
    destruct (bounds_enclose _ _ _ _ _ _ _ Hb Hin) as (?&?&?&?).
    repeat split; qc_to_q; nra.
  - split; qc_to_q; nra.
Qed.

Lemma global_area_pads_and_contains_point :
  ∃ minx miny maxx maxy s w n e,
    bounds point_corridor = Some (minx, miny, maxx, maxy) ∧
    global_area point_corridor (dec 2 100) = Some (s, w, n, e) ∧
    s = miny - ((maxy - miny) * dec 2 100 + Q2Qc (1 # 100)) ∧
    w = minx - ((maxx - minx) * dec 2 100 + Q2Qc (1 # 100)) ∧
    n = maxy + ((maxy - miny) * dec 2 100 + Q2Qc (1 # 100)) ∧
    e = maxx + ((maxx - minx) * dec 2 100 + Q2Qc (1 # 100)) ∧
    (∀ x y, (x, y) ∈ exterior point_corridor → w < x ∧ x < e ∧ s < y ∧ y < n) ∧
    s < n ∧ w < e.
Proof.
  apply (global_area_pads_and_contains point_corridor (dec 2 100)).
  - unfold point_corridor. simpl. discriminate.
  - unfold Qcle. simpl. unfold Qle. simpl. lia.
Defined.

(** C9, on the empty polygon: it has no bounds (all four are NaN), and the
    envelope that [global_area] returns for it is NaN on every side, so it
    has no positive extent and holds nothing. *)
Lemma global_area_empty_polygon :
  exterior empty_polygon = [] ∧
  bounds empty_polygon = None ∧
  global_area empty_polygon (dec 2 100) = None.
Proof. repeat split. Qed.

Lemma envelope_area_unfold geom expand_factor minx miny maxx maxy :
  bounds geom = Some (minx, miny, maxx, maxy) →
  envelope_area <$> global_area geom expand_factor =
    Some (side (maxy - miny) expand_factor * side (maxx - minx) expand_factor).
Proof.
  intros Hb. rewrite (global_area_unfold _ _ _ _ _ _ Hb). simpl. f_equal.
  apply Qc_is_canon. unfold side. qc_to_q. ring.
Qed.

Lemma side_mono d ef1 ef2 :
  0 ≤ d → 0 ≤ ef1 → ef1 ≤ ef2 →
  0 < side d ef1 ∧ side d ef1 ≤ side d ef2.
Proof. unfold side. intros. split; qc_to_q; nra. Qed.

Lemma side_zero ef : side 0 ef = Q2Qc (2 # 100).
Proof. unfold side. apply Qc_is_canon. qc_to_q. ring. Qed.

Lemma Qcmult_le_mono (a b c d : Qc) :
  0 ≤ a → a ≤ b → 0 ≤ c → c ≤ d → a * c ≤ b * d.
Proof. intros. qc_to_q. nra. Qed.

Lemma Qcminus_nonneg (a b : Qc) : a ≤ b → 0 ≤ b - a.
Proof. intros. qc_to_q. lra. Qed.

Lemma Qcminus_diag (a : Qc) : a - a = 0.
Proof. apply Qc_is_canon. qc_to_q. ring. Qed.

(** C8, on a corridor of zero extent: the factors 0.02 and 0.5 give envelopes
    of the same area, 0.0004, so the area does not strictly increase. *)
Lemma global_area_area_constant_on_point :
  dec 2 100 < dec 1 2 ∧
  envelope_area <$> global_area point_corridor (dec 2 100) = Some (dec 4 10000) ∧
  envelope_area <$> global_area point_corridor (dec 1 2) = Some (dec 4 10000).
Proof.
  split; [reflexivity|].
  split; vm_compute; f_equal; apply Qc_is_canon; reflexivity.
Qed.

(** Below zero the area need not grow with the factor: on the square of side
    4 the factors -2 and -1 give areas 143.5204 and 15.8404. *)
Example global_area_area_shrinks_below_zero :
  dec (-2) 1 < dec (-1) 1 ∧
  envelope_area <$> global_area square (dec (-2) 1) = Some (dec 1435204 10000) ∧
  envelope_area <$> global_area square (dec (-1) 1) = Some (dec 158404 10000).
Proof.
  split; [reflexivity|].
  split; vm_compute; f_equal; apply Qc_is_canon; reflexivity.
Qed.

(** C8, amended. For a geometry with bounds and factors [0 <= ef1 <= ef2], the
    area of the envelope does not decrease from [ef1] to [ef2]; a strict
    increase is not promised, and when the bounds have no extent the two
    envelopes are the same. *)
Theorem global_area_area_monotone (geom : Polygon) (minx miny maxx maxy ef1 ef2 : Qc) :
  bounds geom = Some (minx, miny, maxx, maxy) →
  0 ≤ ef1 →
  ef1 ≤ ef2 →
  ∃ a1 a2,
    envelope_area <$> global_area geom ef1 = Some a1 ∧
    envelope_area <$> global_area geom ef2 = Some a2 ∧
    a1 ≤ a2 ∧
    (minx = maxx → miny = maxy →
     global_area geom ef1 = global_area geom ef2 ∧ a1 = a2).
Proof.
  intros Hb H0 Hle.
  destruct (bounds_ordered _ _ _ _ _ Hb) as [Hx%Qcminus_nonneg Hy%Qcminus_nonneg].
  destruct (side_mono _ _ _ Hx H0 Hle) as [Hx1 Hx2].
  destruct (side_mono _ _ _ Hy H0 Hle) as [Hy1 Hy2].
  eexists _, _.
  split; [by apply envelope_area_unfold|].
  split; [by apply envelope_area_unfold|].
  split.
  - apply Qcmult_le_mono; auto using Qclt_le_weak.
  - intros -> ->. split; [|by rewrite !Qcminus_diag, !side_zero].
    rewrite !(global_area_unfold _ _ _ _ _ _ Hb), !Qcminus_diag.
    do 4 f_equal; apply Qc_is_canon; qc_to_q; ring.
Qed.

Lemma global_area_area_monotone_square :
  ∃ a1 a2,
    envelope_area <$> global_area square (dec 2 100) = Some a1 ∧
    envelope_area <$> global_area square (dec 1 2) = Some a2 ∧
    a1 ≤ a2 ∧
    (dec 0 1 = dec 4 1 → dec 0 1 = dec 4 1 →
     global_area square (dec 2 100) = global_area square (dec 1 2) ∧ a1 = a2).
Proof.
  apply (global_area_area_monotone square (dec 0 1) (dec 0 1) (dec 4 1) (dec 4 1)).
  - vm_compute. reflexivity.
  - unfold Qcle, Qle. simpl. lia.
  - unfold Qcle, Qle. simpl. lia.
Defined.

(** ** The corridor builder *)

(** The geometry [create_buffer] returns for the trace [gpsx] in zone
    [utm_zone]: the line projected, buffered and projected back. *)
Lemma create_buffer_two_or_more (p q : coord) (rest : list coord) (buffer_m : Qc) :
  (1 ≤ utm_zone_of p.1 ≤ 60)%Z →
  create_buffer (p :: q :: rest) buffer_m =
    Ok (Transformed (trans_to_wgs (utm_zone_of p.1))
          (Buffered
             (Transformed (trans_to_utm (utm_zone_of p.1))
                (LineStringOf (p :: q :: rest)))
             buffer_m)).
Proof.
  intros Hzone. unfold create_buffer, utm_crs_of_zone. simpl.
  by rewrite decide_True.
Qed.

(** The only traces that [create_buffer] refuses on account of their length
    are the empty one and the one of a single coordinate, whatever the
    radius. *)
Lemma create_buffer_short_trace (p : coord) (buffer_m : Qc) :
  create_buffer [] buffer_m = Raise IndexError ∧
  create_buffer [p] buffer_m = Raise GEOSException.
Proof. done. Qed.

(** C4, on the trace of the scenario with radius 0: [create_buffer] raises
    nothing and returns the buffer that the geometry library computes for
    distance 0. *)
Lemma create_buffer_accepts_zero_radius :
  create_buffer miami_trace (dec 0 1) =
    Ok (Transformed (trans_to_wgs 17)
          (Buffered (Transformed (trans_to_utm 17) (LineStringOf miami_trace))
                    (dec 0 1))).
Proof. vm_compute. reflexivity. Qed.

(** C4, amended. [create_buffer] does not look at the sign of the radius: for
    a trace of two or more coordinates whose first longitude falls in a UTM
    zone, a radius that is zero or negative raises no error, and the result is
    the buffer of the projected line at that distance, projected back. *)
Theorem create_buffer_nonpositive_radius (gpsx : list coord) (first : coord)
    (buffer_m : Qc) :
  buffer_m ≤ 0 →
  (2 ≤ length gpsx)%nat →
  gpsx !! 0%nat = Some first →
  (1 ≤ utm_zone_of first.1 ≤ 60)%Z →
  create_buffer gpsx buffer_m =
    Ok (Transformed (trans_to_wgs (utm_zone_of first.1))
          (Buffered
             (Transformed (trans_to_utm (utm_zone_of first.1)) (LineStringOf gpsx))
             buffer_m)).
Proof.
  intros _ Hlen Hfirst Hzone.
  destruct gpsx as [|p [|q rest]]; simpl in *; try lia.
  injection Hfirst as ->. by apply create_buffer_two_or_more.
Qed.

Lemma create_buffer_nonpositive_radius_miami :
  create_buffer miami_trace (dec (-500) 1) =
    Ok (Transformed (trans_to_wgs (utm_zone_of (dec (-8019) 100)))
          (Buffered
             (Transformed (trans_to_utm (utm_zone_of (dec (-8019) 100)))
                (LineStringOf miami_trace))
             (dec (-500) 1))).
Proof.
  apply (create_buffer_nonpositive_radius miami_trace
           (dec (-8019) 100, dec 2576 100) (dec (-500) 1)).
  - unfold Qcle, Qle. simpl. lia.
  - simpl. lia.
  - reflexivity.
  - vm_compute. split; discriminate.
Defined.

(** C5, on a trace of two identical points with radius 500: [create_buffer]
    raises nothing and returns the buffer of the line that joins the point to
    itself. *)
Lemma create_buffer_accepts_identical_points :
  create_buffer stalled_trace (dec 500 1) =
    Ok (Transformed (trans_to_wgs 17)
          (Buffered (Transformed (trans_to_utm 17) (LineStringOf stalled_trace))
                    (dec 500 1))).
Proof. vm_compute. reflexivity. Qed.

(** C5, amended. [create_buffer] does not compare the points of the trace:
    for [n >= 2] copies of one point whose longitude falls in a UTM zone it
    raises no error and returns the buffer of that line, for every radius. *)
Theorem create_buffer_coincident_points (p : coord) (n : nat) (buffer_m : Qc) :
  (2 ≤ n)%nat →
  (1 ≤ utm_zone_of p.1 ≤ 60)%Z →
  create_buffer (replicate n p) buffer_m =
    Ok (Transformed (trans_to_wgs (utm_zone_of p.1))
          (Buffered
             (Transformed (trans_to_utm (utm_zone_of p.1))
                (LineStringOf (replicate n p)))
             buffer_m)).
Proof.
  intros Hn Hzone. destruct n as [|[|n]]; try lia.
  simpl. by apply create_buffer_two_or_more.
Qed.

Lemma create_buffer_coincident_points_three :
  create_buffer (replicate 3 (dec (-8019) 100, dec 2576 100)) (dec 500 1) =
    Ok (Transformed (trans_to_wgs (utm_zone_of (dec (-8019) 100)))
          (Buffered
             (Transformed (trans_to_utm (utm_zone_of (dec (-8019) 100)))
                (LineStringOf (replicate 3 (dec (-8019) 100, dec 2576 100))))
             (dec 500 1))).
Proof.
  apply (create_buffer_coincident_points (dec (-8019) 100, dec 2576 100) 3 (dec 500 1)).
  - lia.
  - vm_compute. split; discriminate.
Defined.

(** ** The candidate normaliser *)

(** The shape of every record [chosen_area] returns. *)
Lemma chosen_area_shape (elem : element) (place : pydict) :
  chosen_area elem = Some place →
  ∃ name name_ascii name_en lat lon,
    place = list_to_map [
      ("placename", VStr name);
      ("placename_ascii", VStr name_ascii);
      ("placename_en", VStr name_en);
      ("placetag", VStr (default "town" (default ∅ (elem_tags elem) !! "place")));
      ("latitude", number lat);
      ("longitude", number lon)
    ].
Proof.
  unfold chosen_area. intros Hplace.
  apply bind_Some in Hplace as ([lat lon] & _ & Hplace).
  injection Hplace as <-. by eexists _, _, _, lat, lon.
Qed.

(** An element with a usable position gets a place from [chosen_area], with
    that position. *)
Lemma chosen_area_positioned (elem : element) (x y : Qc) :
  (elem_type elem = "node" ∧ elem_lon elem = Some x ∧ elem_lat elem = Some y)
  ∨ (elem_type elem ≠ "node" ∧
     ∃ center, elem_center elem = Some center ∧
               center !! "lon" = Some x ∧ center !! "lat" = Some y) →
  ∃ name name_ascii name_en,
    chosen_area elem = Some (list_to_map [
      ("placename", VStr name);
      ("placename_ascii", VStr name_ascii);
      ("placename_en", VStr name_en);
      ("placetag", VStr (default "town" (default ∅ (elem_tags elem) !! "place")));
      ("latitude", VNum y);
      ("longitude", VNum x)
    ]).
Proof.
  unfold chosen_area.
  intros [(Hnode & -> & ->)|(Hway & center & -> & Hlon & Hlat)].
  - rewrite decide_True by done. by eexists _, _, _.
  - rewrite decide_False by done.
    rewrite decide_False by (intros ->; by rewrite lookup_empty in Hlon).
    rewrite Hlon, Hlat. by eexists _, _, _.
Qed.

(** What the loop body does with a place whose position is a pair of numbers
    inside the corridor, when the region lookup answers: it emits the record
    made of the place, the roadway name and the region. *)
Lemma visit_accepts (reverse_geocode : geocoder) (roadway_name : string)
    (buff_geom : Polygon) (e : element) (name name_ascii name_en tag : string)
    (x y : Qc) (addr : gmap string string) :
  chosen_area e = Some (list_to_map [
    ("placename", VStr name);
    ("placename_ascii", VStr name_ascii);
    ("placename_en", VStr name_en);
    ("placetag", VStr tag);
    ("latitude", VNum y);
    ("longitude", VNum x)
  ]) →
  within (x, y) buff_geom = true →
  reverse_geocode (VNum y) (VNum x) = Ok addr →
  ∃ state country,
    set_state_country reverse_geocode (VNum y) (VNum x) = Ok (state, country) ∧
    visit reverse_geocode roadway_name buff_geom e = Ok (Some (list_to_map [
      ("roadway", VStr roadway_name);
      ("placename", VStr name);
      ("placename_ascii", VStr name_ascii);
      ("placename_en", VStr name_en);
      ("placetag", VStr tag);
      ("latitude", VNum y);
      ("longitude", VNum x);
      ("state/province", VStr (or_text state ""));
      ("state/province-ascii", VStr (or_text state ""));
      ("country", VStr (or_text country ""))
    ])).
Proof.
  intros Hplace Hin Haddr. eexists _, _.
  unfold visit, set_state_country. rewrite Hplace, Haddr.
  split; [reflexivity|].
  case_decide; [done|].
  unfold getitem. cbn [list_to_map foldr uncurry fst snd].
  dict_lookup. cbn [mbind result_bind Point float]. rewrite Hin. cbn [negb].
  rewrite Haddr. cbn [mbind result_bind]. by dict_lookup.
Qed.

(** C10. An element with a usable position (a node with ["lat"] and ["lon"],
    or another element whose centre has them) gets a record from
    [chosen_area], and the record's ["placetag"] is text: it is "town" when
    the tags of the element (none counting as empty) have no ["place"] entry,
    and the value of that entry otherwise.  When the position is inside the
    corridor and the region lookup answers, the loop body emits a record for
    the element with the same ["placetag"]. *)
Theorem chosen_area_placetag_default (elem : element) (x y : Qc) :
  (elem_type elem = "node" ∧ elem_lon elem = Some x ∧ elem_lat elem = Some y)
  ∨ (elem_type elem ≠ "node" ∧
     ∃ center, elem_center elem = Some center ∧
               center !! "lon" = Some x ∧ center !! "lat" = Some y) →
  ∃ place tag,
    chosen_area elem = Some place ∧
    place !! "placetag" = Some (VStr tag) ∧
    (default ∅ (elem_tags elem) !! "place" = None → tag = "town") ∧
    (∀ s, default ∅ (elem_tags elem) !! "place" = Some s → tag = s) ∧
    (∀ (reverse_geocode : geocoder) roadway_name buff_geom addr,
       within (x, y) buff_geom = true →
       reverse_geocode (VNum y) (VNum x) = Ok addr →
       ∃ result,
         visit reverse_geocode roadway_name buff_geom elem = Ok (Some result) ∧
         result !! "placetag" = Some (VStr tag)).
Proof.
  intros (name & ascii & en & Hplace)%chosen_area_positioned.
  eexists _, _. split; [exact Hplace|].
  cbn [list_to_map foldr uncurry fst snd].
  split; [by dict_lookup|]. split; [by intros ->|]. split; [by intros s ->|].
  intros reverse_geocode roadway_name buff_geom addr Hin Haddr.
  destruct (visit_accepts reverse_geocode roadway_name buff_geom _ _ _ _ _ _ _ _
              Hplace Hin Haddr) as (state & country & _ & ->).
  eexists. split; [reflexivity|].
  cbn [list_to_map foldr uncurry fst snd]. by dict_lookup.
Qed.

Lemma chosen_area_placetag_default_miami :
  ∃ place tag,
    chosen_area (miami_node (dec 2 1) (dec 2 1)) = Some place ∧
    place !! "placetag" = Some (VStr tag) ∧
    (default ∅ (elem_tags (miami_node (dec 2 1) (dec 2 1))) !! "place" = None →
     tag = "town") ∧
    (∀ s, default ∅ (elem_tags (miami_node (dec 2 1) (dec 2 1))) !! "place" = Some s →
          tag = s) ∧
    (∀ (reverse_geocode : geocoder) roadway_name buff_geom addr,
       within (dec 2 1, dec 2 1) buff_geom = true →
       reverse_geocode (VNum (dec 2 1)) (VNum (dec 2 1)) = Ok addr →
       ∃ result,
         visit reverse_geocode roadway_name buff_geom (miami_node (dec 2 1) (dec 2 1))
           = Ok (Some result) ∧
         result !! "placetag" = Some (VStr tag)).
Proof.
  apply (chosen_area_placetag_default (miami_node (dec 2 1) (dec 2 1))
           (dec 2 1) (dec 2 1)).
  left. repeat split; reflexivity.
Defined.

(** For the node of the examples, which has no ["place"] tag, the record and
    the emitted record carry "town". *)
Example chosen_area_placetag_miami :
  chosen_area (miami_node (dec 2 1) (dec 2 1)) = Some (miami_place (dec 2 1) (dec 2 1)) ∧
  miami_place (dec 2 1) (dec 2 1) !! "placetag" = Some (VStr "town") ∧
  visit florida "I 95" square (miami_node (dec 2 1) (dec 2 1))
    = Ok (Some (miami_record (dec 2 1) (dec 2 1))) ∧
  miami_record (dec 2 1) (dec 2 1) !! "placetag" = Some (VStr "town").
Proof. repeat split; vm_compute; reflexivity. Qed.

(** The tag is kept when present, a way without a centre has no record, and a
    node without tags gets the default. *)
Example chosen_area_examples :
  (chosen_area (miami_way (dec 2 1) (dec 2 1)) ≫= (.!! "placetag")) = Some (VStr "city") ∧
  chosen_area {| elem_type := "way"; elem_lat := Some 1; elem_lon := Some 1;
                 elem_center := None; elem_tags := None |} = None ∧
  (chosen_area {| elem_type := "node"; elem_lat := Some 1; elem_lon := Some 1;
                  elem_center := None; elem_tags := None |} ≫= (.!! "placetag"))
    = Some (VStr "town").
Proof. repeat split; vm_compute; reflexivity. Qed.

(** ** The containment test *)

Lemma locate_in_ring_on_segment p ring :
  existsb (on_segment p) (segments ring) = true →
  locate_in_ring p ring = BOUNDARY.
Proof. unfold locate_in_ring. by intros ->. Qed.

Lemma locate_in_holes_on_segment p holes :
  existsb (λ ring, existsb (on_segment p) (segments ring)) holes = true →
  locate_in_holes p holes ≠ INTERIOR.
Proof.
  induction holes as [|hole holes IH]; simpl; [done|].
  intros [Hhole|Hrest]%orb_true_iff.
  - by rewrite (locate_in_ring_on_segment _ _ Hhole).
  - destruct (locate_in_ring p hole); auto.
Qed.

(** A point on an edge of the polygon is not in its interior. *)
Lemma locate_on_boundary p geom :
  on_boundary p geom = true → locate p geom ≠ INTERIOR.
Proof.
  unfold on_boundary, locate. simpl. intros [Hshell|Hholes]%orb_true_iff.
  - by rewrite (locate_in_ring_on_segment _ _ Hshell).
  - destruct (locate_in_ring p (exterior geom)); try done.
    by apply locate_in_holes_on_segment.
Qed.

(** A segment wholly above or wholly below the height of [p] is not
    crossed. *)
Lemma crosses_ray_same_side (p a b : coord) :
  above p a = above p b → crosses_ray p (a, b) = false.
Proof.
  unfold crosses_ray, above. intros ->. by rewrite bool_decide_eq_true_2.
Qed.

(** The signed area as a fraction. *)
Lemma orientation_Q (a b p : coord) :
  (this (orientation a b p)
   == (this b.1 - this a.1) * (this p.2 - this a.2)
      - (this b.2 - this a.2) * (this p.1 - this a.1))%Q.
Proof. unfold orientation. qc_to_q. reflexivity. Qed.

(** The points of a horizontal and of a vertical segment. *)
Lemma on_segment_horizontal (p : coord) (xa xb y : Qc) :
  on_segment p ((xa, y), (xb, y))
  = bool_decide (p.2 = y ∧ qmin xa xb ≤ p.1 ∧ p.1 ≤ qmax xa xb).
Proof.
  unfold on_segment. cbn [fst snd].
  destruct (decide (p.2 = y ∧ qmin xa xb ≤ p.1 ∧ p.1 ≤ qmax xa xb))
    as [(Hy & Hlo & Hhi)|Hout].
  - rewrite (bool_decide_eq_true_2 (_ ∧ _)) by done.
    rewrite !andb_true_iff, !bool_decide_eq_true. repeat split; try done.
    + apply Qc_eq_Q. rewrite orientation_Q. cbn [fst snd]. rewrite Hy.
      change (this 0) with 0%Q. ring.
    + rewrite Hy. unfold qmin. case_decide; apply Qcle_refl.
    + rewrite Hy. unfold qmax. case_decide; apply Qcle_refl.
  - rewrite (bool_decide_eq_false_2 (_ ∧ _)) by done.
    apply not_true_iff_false. rewrite !andb_true_iff, !bool_decide_eq_true.
    intros ((((Ho & Hlo) & Hhi) & Hylo) & Hyhi). apply Hout.
    repeat split; try done.
    apply Qcle_antisym; revert Hylo Hyhi; unfold qmin, qmax; by case_decide.
Qed.

Lemma on_segment_vertical (p : coord) (x ya yb : Qc) :
  on_segment p ((x, ya), (x, yb))
  = bool_decide (p.1 = x ∧ qmin ya yb ≤ p.2 ∧ p.2 ≤ qmax ya yb).
Proof.
  unfold on_segment. cbn [fst snd].
  destruct (decide (p.1 = x ∧ qmin ya yb ≤ p.2 ∧ p.2 ≤ qmax ya yb))
    as [(Hx & Hlo & Hhi)|Hout].
  - rewrite (bool_decide_eq_true_2 (_ ∧ _)) by done.
    rewrite !andb_true_iff, !bool_decide_eq_true. repeat split; try done.
    + apply Qc_eq_Q. rewrite orientation_Q. cbn [fst snd]. rewrite Hx.
      change (this 0) with 0%Q. ring.
    + rewrite Hx. unfold qmin. case_decide; apply Qcle_refl.
    + rewrite Hx. unfold qmax. case_decide; apply Qcle_refl.
  - rewrite (bool_decide_eq_false_2 (_ ∧ _)) by done.
    apply not_true_iff_false. rewrite !andb_true_iff, !bool_decide_eq_true.
    intros ((((Ho & Hlo) & Hhi) & Hylo) & Hyhi). apply Hout.
    repeat split; try done.
    apply Qcle_antisym; revert Hlo Hhi; unfold qmin, qmax; by case_decide.
Qed.

(** The ray never crosses a horizontal segment, and it crosses a vertical
    segment when the segment is to the right of [p] and spans the height of
    [p], the upper end excluded. *)
Lemma crosses_ray_horizontal (p : coord) (xa xb y : Qc) :
  crosses_ray p ((xa, y), (xb, y)) = false.
Proof. by apply crosses_ray_same_side. Qed.

Lemma crosses_ray_vertical (p : coord) (x ya yb : Qc) :
  crosses_ray p ((x, ya), (x, yb))
  = bool_decide (qmin ya yb ≤ p.2 ∧ p.2 < qmax ya yb ∧ p.1 < x).
Proof.
  unfold crosses_ray. cbn [fst snd].
  replace (x + (p.2 - ya) * (x - x) / (yb - ya)) with x
    by (unfold Qcdiv; ring).
  destruct p as [px py]. cbn [fst snd].
  repeat case_bool_decide; cbn [negb andb]; try done; exfalso; qc_order.
Qed.

(** Where the ring of a rectangle puts a point: inside when the point is
    strictly between the sides, on the boundary when it is on the perimeter,
    outside otherwise. *)
Lemma locate_in_ring_box (p : coord) (x0 y0 x1 y1 : Qc) :
  x0 < x1 → y0 < y1 →
  locate_in_ring p (exterior (box x0 y0 x1 y1)) =
    if decide (x0 < p.1 ∧ p.1 < x1 ∧ y0 < p.2 ∧ p.2 < y1) then INTERIOR
    else if decide (x0 ≤ p.1 ∧ p.1 ≤ x1 ∧ y0 ≤ p.2 ∧ p.2 ≤ y1) then BOUNDARY
    else EXTERIOR.
Proof.
  intros Hx Hy. unfold locate_in_ring, box.
  cbn [exterior segments zip zip_with drop existsb].
  rewrite !filter_cons, filter_nil.
  rewrite !on_segment_horizontal, !on_segment_vertical,
    !crosses_ray_horizontal, !crosses_ray_vertical.
  destruct p as [px py]. cbn [fst snd].
  repeat case_bool_decide; repeat case_decide; cbn [orb length Nat.odd];
    try done; exfalso; qc_order.
Qed.

(** On a rectangle the test is true exactly for the points strictly between
    the sides. *)
Lemma within_box (p : coord) (x0 y0 x1 y1 : Qc) :
  x0 < x1 → y0 < y1 →
  within p (box x0 y0 x1 y1) = true
  ↔ x0 < p.1 ∧ p.1 < x1 ∧ y0 < p.2 ∧ p.2 < y1.
Proof.
  intros Hx Hy. unfold within, locate. rewrite bool_decide_eq_true.
  rewrite locate_in_ring_box by done.
  repeat case_decide; simpl; split; done.
Qed.

(** The points on the edges of a rectangle are those of the closed rectangle
    that are not strictly between the sides. *)
Lemma on_boundary_box (p : coord) (x0 y0 x1 y1 : Qc) :
  x0 < x1 → y0 < y1 →
  on_boundary p (box x0 y0 x1 y1) = true
  ↔ (x0 ≤ p.1 ∧ p.1 ≤ x1 ∧ y0 ≤ p.2 ∧ p.2 ≤ y1)
    ∧ ¬ (x0 < p.1 ∧ p.1 < x1 ∧ y0 < p.2 ∧ p.2 < y1).
Proof.
  intros Hx Hy. pose proof (locate_in_ring_box p x0 y0 x1 y1 Hx Hy) as Hloc.
  unfold on_boundary. cbn [existsb interiors box]. rewrite orb_false_r.
  unfold locate_in_ring in Hloc.
  destruct (existsb (on_segment p) (segments (exterior (box x0 y0 x1 y1))));
    [|destruct (Nat.odd _)]; repeat case_decide; try discriminate;
    split; try done; tauto.
Qed.

(** With a rectangular hole, the test is true exactly for the points
    strictly between the sides and outside the closed hole. *)
Lemma within_frame (p : coord) (x0 y0 x1 y1 hx0 hy0 hx1 hy1 : Qc) :
  x0 < x1 → y0 < y1 → hx0 < hx1 → hy0 < hy1 →
  within p (frame x0 y0 x1 y1 hx0 hy0 hx1 hy1) = true
  ↔ (x0 < p.1 ∧ p.1 < x1 ∧ y0 < p.2 ∧ p.2 < y1)
    ∧ ¬ (hx0 ≤ p.1 ∧ p.1 ≤ hx1 ∧ hy0 ≤ p.2 ∧ p.2 ≤ hy1).
Proof.
  intros Hx Hy Hhx Hhy. unfold within, locate, frame.
  cbn [exterior interiors locate_in_holes].
  change [(x0, y0); (x1, y0); (x1, y1); (x0, y1); (x0, y0)]
    with (exterior (box x0 y0 x1 y1)).
  change [(hx0, hy0); (hx1, hy0); (hx1, hy1); (hx0, hy1); (hx0, hy0)]
    with (exterior (box hx0 hy0 hx1 hy1)).
  rewrite bool_decide_eq_true, !locate_in_ring_box by done.
  destruct p as [px py]. cbn [fst snd].
  repeat case_decide; simpl; split; try done; try tauto;
    intros; exfalso; qc_order.
Qed.

(** The square of the examples is a rectangular corridor. *)
Example square_is_box :
  square = box (dec 0 1) (dec 0 1) (dec 4 1) (dec 4 1).
Proof. reflexivity. Qed.

(** C2, on the square: the node at (0, 2) lies on the left edge, the
    containment test answers false for it, and the search emits no record. *)
Lemma boundary_candidate_not_accepted :
  on_boundary (dec 0 1, dec 2 1) square = true ∧
  within (dec 0 1, dec 2 1) square = false ∧
  road_search florida "I 95" square [miami_node (dec 0 1) (dec 2 1)] = Ok [].
Proof. repeat split; vm_compute; reflexivity. Qed.

(** The same node placed inside the square is accepted. *)
Example interior_candidate_accepted :
  within (dec 2 1, dec 2 1) square = true ∧
  road_search florida "I 95" square [miami_node (dec 2 1) (dec 2 1)]
    = Ok [miami_record (dec 2 1) (dec 2 1)].
Proof. split; vm_compute; reflexivity. Qed.

(** So is a point between the shell and the hole, while a point in the hole
    and a point on the rim of the hole are not. *)
Example candidates_around_a_hole :
  within (dec 1 2, dec 2 1) square_with_hole = true ∧
  within (dec 2 1, dec 2 1) square_with_hole = false ∧
  within (dec 1 1, dec 2 1) square_with_hole = false.
Proof. repeat split; vm_compute; reflexivity. Qed.

(** C2, amended. The containment test is open.  For a candidate with a usable
    position (a node with ["lat"] and ["lon"], or another element whose centre
    has them): when the position lies on an edge of the corridor polygon (of
    its exterior ring or of a hole), [within] answers false and the loop body
    ends in [continue] without a record.  On a rectangular corridor the
    positions on an edge are those of the closed rectangle that are not
    strictly between its sides; [within] answers true exactly for the
    positions strictly between the sides (and, when the rectangle has a
    rectangular hole, outside the closed hole), and for such a position the
    loop body emits a record at that position when the region lookup
    answers. *)
Theorem boundary_candidate_skipped (reverse_geocode : geocoder)
    (roadway_name : string) (e : element) (x y : Qc) :
  (elem_type e = "node" ∧ elem_lon e = Some x ∧ elem_lat e = Some y)
  ∨ (elem_type e ≠ "node" ∧
     ∃ center, elem_center e = Some center ∧
               center !! "lon" = Some x ∧ center !! "lat" = Some y) →
  (∀ buff_geom,
     on_boundary (x, y) buff_geom = true →
     within (x, y) buff_geom = false ∧
     visit reverse_geocode roadway_name buff_geom e = Ok None) ∧
  (∀ x0 y0 x1 y1,
     x0 < x1 → y0 < y1 →
     (on_boundary (x, y) (box x0 y0 x1 y1) = true
      ↔ (x0 ≤ x ∧ x ≤ x1 ∧ y0 ≤ y ∧ y ≤ y1)
        ∧ ¬ (x0 < x ∧ x < x1 ∧ y0 < y ∧ y < y1)) ∧
     (within (x, y) (box x0 y0 x1 y1) = true
      ↔ x0 < x ∧ x < x1 ∧ y0 < y ∧ y < y1) ∧
     (∀ hx0 hy0 hx1 hy1,
        hx0 < hx1 → hy0 < hy1 →
        within (x, y) (frame x0 y0 x1 y1 hx0 hy0 hx1 hy1) = true
        ↔ (x0 < x ∧ x < x1 ∧ y0 < y ∧ y < y1)
          ∧ ¬ (hx0 ≤ x ∧ x ≤ hx1 ∧ hy0 ≤ y ∧ y ≤ hy1)) ∧
     (∀ addr,
        x0 < x ∧ x < x1 ∧ y0 < y ∧ y < y1 →
        reverse_geocode (VNum y) (VNum x) = Ok addr →
        ∃ result,
          visit reverse_geocode roadway_name (box x0 y0 x1 y1) e
            = Ok (Some result) ∧
          result !! "longitude" = Some (VNum x) ∧
          result !! "latitude" = Some (VNum y))).
Proof.
  intros (name & ascii & en & Hplace)%chosen_area_positioned. split.
  - intros buff_geom Hon.
    assert (within (x, y) buff_geom = false) as Hout.
    { unfold within. apply bool_decide_eq_false. by apply locate_on_boundary. }
    split; [done|].
    unfold visit. rewrite Hplace. case_decide; [done|].
    unfold getitem. cbn [list_to_map foldr uncurry fst snd]. dict_lookup.
    cbn [mbind result_bind Point float]. by rewrite Hout.
  - intros x0 y0 x1 y1 Hx Hy.
    split; [by apply (on_boundary_box (x, y))|].
    split; [by apply (within_box (x, y))|].
    split; [intros; by apply (within_frame (x, y))|].
    intros addr Hin%(within_box (x, y)) Haddr; [|done..].
    destruct (visit_accepts reverse_geocode roadway_name _ _ _ _ _ _ _ _ _
                Hplace Hin Haddr) as (state & country & _ & ->).
    eexists. split; [reflexivity|].
    cbn [list_to_map foldr uncurry fst snd]. by dict_lookup.
Qed.

Lemma boundary_candidate_skipped_square :
  (∀ buff_geom,
     on_boundary (dec 0 1, dec 2 1) buff_geom = true →
     within (dec 0 1, dec 2 1) buff_geom = false ∧
     visit florida "I 95" buff_geom (miami_node (dec 0 1) (dec 2 1)) = Ok None) ∧
  (∀ x0 y0 x1 y1,
     x0 < x1 → y0 < y1 →
     (on_boundary (dec 0 1, dec 2 1) (box x0 y0 x1 y1) = true
      ↔ (x0 ≤ dec 0 1 ∧ dec 0 1 ≤ x1 ∧ y0 ≤ dec 2 1 ∧ dec 2 1 ≤ y1)
        ∧ ¬ (x0 < dec 0 1 ∧ dec 0 1 < x1 ∧ y0 < dec 2 1 ∧ dec 2 1 < y1)) ∧
     (within (dec 0 1, dec 2 1) (box x0 y0 x1 y1) = true
      ↔ x0 < dec 0 1 ∧ dec 0 1 < x1 ∧ y0 < dec 2 1 ∧ dec 2 1 < y1) ∧
     (∀ hx0 hy0 hx1 hy1,
        hx0 < hx1 → hy0 < hy1 →
        within (dec 0 1, dec 2 1) (frame x0 y0 x1 y1 hx0 hy0 hx1 hy1) = true
        ↔ (x0 < dec 0 1 ∧ dec 0 1 < x1 ∧ y0 < dec 2 1 ∧ dec 2 1 < y1)
          ∧ ¬ (hx0 ≤ dec 0 1 ∧ dec 0 1 ≤ hx1 ∧ hy0 ≤ dec 2 1 ∧ dec 2 1 ≤ hy1)) ∧
     (∀ addr,
        x0 < dec 0 1 ∧ dec 0 1 < x1 ∧ y0 < dec 2 1 ∧ dec 2 1 < y1 →
        florida (VNum (dec 2 1)) (VNum (dec 0 1)) = Ok addr →
        ∃ result,
          visit florida "I 95" (box x0 y0 x1 y1) (miami_node (dec 0 1) (dec 2 1))
            = Ok (Some result) ∧
          result !! "longitude" = Some (VNum (dec 0 1)) ∧
          result !! "latitude" = Some (VNum (dec 2 1)))).
Proof.
  apply (boundary_candidate_skipped florida "I 95"
           (miami_node (dec 0 1) (dec 2 1)) (dec 0 1) (dec 2 1)).
  left. repeat split; reflexivity.
Defined.

(** ** The deduplication pass *)

Section dedupe.
Implicit Types (r : pydict) (results deduped pre post : list pydict).
Implicit Types (found : gset (pyval * Qc * Qc)).

(** Filtering depends on the predicate at the members of the list only. *)
Lemma filter_ext_elem_of {A} (P Q : A → Prop)
    `{∀ x, Decision (P x)} `{∀ x, Decision (Q x)} (l : list A) :
  (∀ x, x ∈ l → P x ↔ Q x) → filter P l = filter Q l.
Proof.
  induction l as [|a l IH]; intros Hext; [done|].
  rewrite !filter_cons.
  rewrite IH by (intros x Hx; apply Hext; by right).
  destruct (decide (P a)) as [HP|HP], (decide (Q a)) as [HQ|HQ]; try done.
  - destruct HQ. apply Hext; [left|done].
  - destruct HP. apply Hext; [left|done].
Qed.

(** The last record is kept exactly when its key is new. *)
Lemma first_occurrences_snoc pre r :
  first_occurrences (pre ++ [r]) =
    first_occurrences pre ++
    (if decide (record_key r ∈ record_key <$> pre) then [] else [r]).
Proof.
  unfold first_occurrences.
  rewrite imap_app, filter_app, fmap_app. f_equal.
  - f_equal. apply filter_ext_elem_of.
    intros [i x] (j & y & [= -> ->] & Hj)%elem_of_lookup_imap. simpl.
    apply lookup_lt_Some in Hj. by rewrite take_app_le by lia.
  - simpl. rewrite filter_cons, filter_nil. simpl.
    rewrite Nat.add_0_r, take_app_length.
    destruct (decide (record_key r ∉ record_key <$> pre));
      case_decide; done.
Qed.

Lemma first_occurrences_nil : first_occurrences [] = [].
Proof. done. Qed.

(** The loop, started after the records [pre] with their keys in [found]
    and their first occurrences in [deduped], ends with the first
    occurrences of the whole list. *)
Lemma dedupe_loop_first_occurrences post pre found deduped :
  Forall (λ r, ∃ key, record_key r = Ok key) post →
  (∀ key, key ∈ found ↔ Ok key ∈ record_key <$> pre) →
  deduped = first_occurrences pre →
  dedupe_loop post found deduped = Ok (first_occurrences (pre ++ post)).
Proof.
  revert pre found deduped.
  induction post as [|r post IH]; intros pre found deduped Hkeyed Hfound ->.
  { by rewrite app_nil_r. }
  apply Forall_cons in Hkeyed as [[key Hkey] Hkeyed].
  cbn [dedupe_loop]. rewrite Hkey. cbn [mbind result_bind].
  replace (pre ++ r :: post) with ((pre ++ [r]) ++ post)
    by (by rewrite <-app_assoc).
  case_decide as Hin.
  - apply IH; [done| |].
    + intros k. rewrite fmap_app, elem_of_app, Hfound. simpl.
      rewrite list_elem_of_singleton, Hkey. split; [auto|].
      intros [?|[= ->]]; [done|]. by apply Hfound.
    + rewrite first_occurrences_snoc, decide_True, app_nil_r; [done|].
      rewrite Hkey. by apply Hfound.
  - apply IH; [done| |].
    + intros k. rewrite fmap_app, elem_of_app, elem_of_union, Hfound. simpl.
      rewrite list_elem_of_singleton, elem_of_singleton, Hkey.
      split; [intros [->|?]|intros [?|[= ->]]]; auto.
    + rewrite first_occurrences_snoc, decide_False; [done|].
      rewrite Hkey. by rewrite <-Hfound.
Qed.

Lemma dedupe_first_occurrences results :
  Forall (λ r, ∃ key, record_key r = Ok key) results →
  dedupe results = Ok (first_occurrences results).
Proof.
  intros Hkeyed. unfold dedupe.
  apply (dedupe_loop_first_occurrences results []); [done| |done].
  intros key. simpl. rewrite elem_of_nil. set_solver.
Qed.

(** A loop that ends without an exception has found a key for every
    record. *)
Lemma dedupe_loop_Ok results found deduped out :
  dedupe_loop results found deduped = Ok out →
  Forall (λ r, ∃ key, record_key r = Ok key) results.
Proof.
  revert found deduped.
  induction results as [|r results IH]; intros found deduped Hout; [done|].
  cbn [dedupe_loop] in Hout.
  destruct (record_key r) as [key|] eqn:Hkey; [|done].
  cbn [mbind result_bind] in Hout.
  constructor; [by eexists|]. case_decide; eauto.
Qed.

Lemma first_occurrences_sublist results :
  first_occurrences results `sublist_of` results.
Proof.
  induction results as [|r pre IH] using rev_ind; [done|].
  rewrite first_occurrences_snoc. apply sublist_app; [done|].
  case_decide; [apply sublist_nil_l|done].
Qed.

Lemma first_occurrences_keys_NoDup results :
  NoDup (record_key <$> first_occurrences results).
Proof.
  induction results as [|r pre IH] using rev_ind; [constructor|].
  rewrite first_occurrences_snoc, fmap_app. case_decide as Hin; simpl.
  - by rewrite app_nil_r.
  - apply NoDup_app. split; [done|]. split; [|apply NoDup_singleton].
    intros key Hkey ->%list_elem_of_singleton. apply Hin.
    apply list_elem_of_fmap in Hkey as (x & -> & Hx).
    apply list_elem_of_fmap. exists x. split; [done|].
    eapply elem_of_submseteq; [done|].
    apply sublist_submseteq, first_occurrences_sublist.
Qed.

(** Records with distinct keys are all first occurrences. *)
Lemma first_occurrences_NoDup results :
  NoDup (record_key <$> results) → first_occurrences results = results.
Proof.
  induction results as [|r pre IH] using rev_ind; [done|].
  rewrite fmap_app. intros (Hpre & Hnew & _)%NoDup_app.
  rewrite first_occurrences_snoc, IH by done. rewrite decide_False; [done|].
  intros Hin. apply (Hnew _ Hin). simpl. left.
Qed.
End dedupe.

Lemma first_occurrences_keyed (results : list pydict) :
  Forall (λ r, ∃ key, record_key r = Ok key) results →
  Forall (λ r, ∃ key, record_key r = Ok key) (first_occurrences results).
Proof.
  rewrite !Forall_forall. intros Hkeyed r Hr. apply Hkeyed.
  eapply elem_of_submseteq; [done|].
  apply sublist_submseteq, first_occurrences_sublist.
Qed.

(** Every key of the input is the key of a record that is kept. *)
Lemma first_occurrences_keys (results : list pydict) (r : pydict) :
  r ∈ results →
  ∃ r', r' ∈ first_occurrences results ∧ record_key r' = record_key r.
Proof.
  revert r.
  induction results as [|x pre IH] using rev_ind; intros r;
    [by intros ?%elem_of_nil|].
  rewrite first_occurrences_snoc.
  assert (∀ y, y ∈ pre →
    ∃ r', r' ∈ first_occurrences pre ++
            (if decide (record_key x ∈ record_key <$> pre) then [] else [x])
          ∧ record_key r' = record_key y) as Hpre.
  { intros y (r' & Hr' & Heq)%IH. exists r'. split; [|done].
    apply elem_of_app. by left. }
  intros [Hr| ->%list_elem_of_singleton]%elem_of_app; [by apply Hpre|].
  case_decide as Hin.
  - apply list_elem_of_fmap in Hin as (y & -> & Hy). by apply Hpre.
  - exists x. split; [|done]. apply elem_of_app. right. left.
Qed.

(** The floor of a fraction and the next integer enclose it. *)
Lemma Qfloor_bounds (y : Q) :
  (inject_Z (Qfloor y) <= y ∧ y < inject_Z (Qfloor y) + 1)%Q.
Proof.
  split; [apply Qfloor_le|].
  pose proof (Qlt_floor y) as Hlt. rewrite inject_Z_plus in Hlt. exact Hlt.
Qed.

(** An integer strictly between [f - 1] and [f + 2] is [f] or [f + 1]. *)
Lemma inject_Z_between (k f : Z) :
  (inject_Z f - 1 < inject_Z k)%Q → (inject_Z k < inject_Z f + 2)%Q →
  k = f ∨ k = (f + 1)%Z.
Proof.
  intros Hlo Hhi.
  unfold Qlt, Qminus, Qplus, Qopp, inject_Z in *. simpl in *. lia.
Qed.

(** [round_half_even] gives the nearest integer of the specification, and
    nothing else is one. *)
Lemma nearest_integer_round (x : Qc) (k : Z) :
  nearest_integer x k ↔ k = round_half_even x.
Proof.
  unfold nearest_integer, round_half_even. cbn zeta.
  destruct (Qfloor_bounds x) as [Hlo Hhi].
  set (f := Qfloor x) in *. clearbody f.
  assert (inject_Z (f + 1) == inject_Z f + 1)%Q as Hf1
    by (by rewrite inject_Z_plus).
  split.
  - intros Hnear.
    assert (k = f ∨ k = (f + 1)%Z) as [->| ->].
    { apply inject_Z_between; rewrite ?Qc_eq_Q in Hnear; qc_to_q;
        destruct Hnear as [[? ?]|[[?|?] _]]; lra. }
    + case_decide as H1; [done|].
      case_decide as H2.
      { exfalso. rewrite ?Qc_eq_Q in Hnear. qc_to_q.
        destruct Hnear as [[? ?]|[[?|?] _]]; lra. }
      destruct Hnear as [[? ?]|[_ ->]]; [|done].
      exfalso. qc_to_q. lra.
    + rewrite Z.even_add in Hnear. cbn in Hnear.
      case_decide as H1.
      { exfalso. rewrite ?Qc_eq_Q in Hnear. qc_to_q. rewrite Hf1 in Hnear.
        destruct Hnear as [[? ?]|[[?|?] _]]; lra. }
      case_decide as H2; [done|].
      destruct (Z.even f) eqn:He; [|done].
      exfalso. rewrite ?Qc_eq_Q in Hnear. qc_to_q. rewrite Hf1 in Hnear.
      destruct Hnear as [[? ?]|[[?|?] ?]]; [lra|lra|done].
  - intros ->.
    case_decide as H1; [left; qc_to_q; lra|].
    case_decide as H2; [left; qc_to_q; rewrite Hf1; lra|].
    destruct (Z.even f) eqn:He.
    + right. split; [left|done]. apply Qc_eq_Q. qc_to_q. lra.
    + right. split; [right|].
      * apply Qc_eq_Q. qc_to_q. rewrite Hf1. lra.
      * by rewrite Z.even_add, He.
Qed.

(** [round] gives the rounding of the specification, and nothing else is
    one. *)
Lemma rounded_to_round (ndigits : nat) (x q : Qc) :
  rounded_to ndigits x q ↔ q = round x ndigits.
Proof.
  unfold rounded_to, round. cbn zeta. split.
  - intros (k & ->%nearest_integer_round & ->). reflexivity.
  - intros ->. eexists. split; [|reflexivity]. by apply nearest_integer_round.
Qed.

(** The key of a record that has the fields. *)
Lemma record_key_fields (r : pydict) (name : pyval) (lat lon : Qc) :
  key_fields r name lat lon →
  record_key r = Ok (name, round lat 6, round lon 6).
Proof.
  intros (Hname & Hlat & Hlon). unfold record_key, getitem.
  by rewrite Hname, Hlat, Hlon.
Qed.

(** The key that the pass computes is the key of the specification. *)
Lemma record_key_same_key (r1 r2 : pydict) :
  (∃ name lat lon, key_fields r1 name lat lon) →
  (∃ name lat lon, key_fields r2 name lat lon) →
  record_key r1 = record_key r2 ↔ same_key r1 r2.
Proof.
  intros (name1 & lat1 & lon1 & H1) (name2 & lat2 & lon2 & H2).
  rewrite (record_key_fields _ _ _ _ H1), (record_key_fields _ _ _ _ H2).
  split.
  - intros Heq.
    assert (name1 = name2) as <- by congruence.
    assert (round lat1 6 = round lat2 6) as Hlat by congruence.
    assert (round lon1 6 = round lon2 6) as Hlon by congruence.
    exists name1, lat1, lon1, lat2, lon2, (round lat1 6), (round lon1 6).
    by rewrite !rounded_to_round.
  - intros (name & la1 & lo1 & la2 & lo2 & lat6 & lon6 & H1' & H2' & Hr).
    rewrite !rounded_to_round in Hr. destruct Hr as (Ha & Hb & Hc & Hd).
    destruct H1 as (? & ? & ?), H2 as (? & ? & ?),
      H1' as (? & ? & ?), H2' as (? & ? & ?). congruence.
Qed.

(** Every record of the input has the key of a record that is kept, and
    that record is the first of the input with this key. *)
Lemma first_occurrences_first (results : list pydict) (i : nat) (r : pydict) :
  results !! i = Some r →
  ∃ (j : nat) r', (j ≤ i)%nat ∧ results !! j = Some r' ∧ record_key r' = record_key r ∧
    r' ∈ first_occurrences results ∧
    ∀ (k : nat) r'', (k < j)%nat → results !! k = Some r'' → record_key r'' ≠ record_key r.
Proof.
  revert r. induction (lt_wf i) as [i _ IH]. intros r Hr.
  destruct (decide (record_key r ∈ record_key <$> take i results)) as [Hin|Hnew].
  - apply list_elem_of_fmap in Hin as (r0 & Hkey & Hin).
    apply list_elem_of_lookup in Hin as (k & Hk).
    apply lookup_take_Some in Hk as [Hk Hlt].
    destruct (IH k Hlt r0 Hk) as (j & r' & Hj & Hr' & Heq & Hkept & Hfirst).
    exists j, r'. rewrite Hkey. repeat split; try done. lia.
  - exists i, r. repeat split; try done.
    + unfold first_occurrences. apply list_elem_of_fmap. exists (i, r).
      split; [done|]. apply list_elem_of_filter. split; [done|].
      apply elem_of_lookup_imap. by exists i, r.
    + intros k r'' Hlt Hk Heq. apply Hnew. rewrite <-Heq.
      apply list_elem_of_fmap. exists r''. split; [done|].
      apply list_elem_of_lookup. exists k. by apply lookup_take_Some.
Qed.

(** C6. On records that have the fields of the key (a ["placename"], and
    numbers under ["latitude"] and ["longitude"]), the deduplication pass
    returns, and its result is the list of the records that are the first of
    the input to bear their key, in the order of the input.  The result is a
    subsequence of the input and equals the list of first occurrences.  The
    key that the pass computes is the key of the specification: two records
    of the input get the same key exactly when they have the same name and
    their latitudes, and their longitudes, are the same once rounded to 6
    decimal places.  No two records of the result bear the same key, and
    every record of the input has its key borne by a record of the result,
    which is the first record of the input with that key. *)
Theorem dedupe_keeps_first_of_each_key (results : list pydict) :
  Forall (λ r, ∃ name lat lon, key_fields r name lat lon) results →
  ∃ deduped,
    dedupe results = Ok deduped ∧
    deduped = first_occurrences results ∧
    deduped `sublist_of` results ∧
    NoDup (record_key <$> deduped) ∧
    (∀ r1 r2, r1 ∈ results → r2 ∈ results →
       record_key r1 = record_key r2 ↔ same_key r1 r2) ∧
    (∀ i j r1 r2, deduped !! i = Some r1 → deduped !! j = Some r2 →
       same_key r1 r2 → i = j) ∧
    (∀ i r, results !! i = Some r →
       ∃ (j : nat) r', (j ≤ i)%nat ∧ results !! j = Some r' ∧ same_key r' r ∧ r' ∈ deduped ∧
         ∀ (k : nat) r'', (k < j)%nat → results !! k = Some r'' → ¬ same_key r'' r).
Proof.
  intros Hfields.
  assert (Forall (λ r, ∃ key, record_key r = Ok key) results) as Hkeyed.
  { eapply Forall_impl; [exact Hfields|].
    intros r (name & lat & lon & Hr). eexists. by apply record_key_fields. }
  assert (∀ r1 r2, r1 ∈ results → r2 ∈ results →
            record_key r1 = record_key r2 ↔ same_key r1 r2) as Hsame.
  { rewrite Forall_forall in Hfields. intros r1 r2 H1 H2.
    apply record_key_same_key; by apply Hfields. }
  assert (∀ r, r ∈ first_occurrences results → r ∈ results) as Hsub.
  { intros r Hr. eapply elem_of_submseteq; [exact Hr|].
    apply sublist_submseteq, first_occurrences_sublist. }
  exists (first_occurrences results).
  split; [by apply dedupe_first_occurrences|].
  split; [done|].
  split; [apply first_occurrences_sublist|].
  split; [apply first_occurrences_keys_NoDup|].
  split; [done|].
  split.
  - intros i j r1 r2 Hi Hj Hkey.
    apply (NoDup_lookup (record_key <$> first_occurrences results) i j
             (record_key r1)).
    + apply first_occurrences_keys_NoDup.
    + by rewrite list_lookup_fmap, Hi.
    + rewrite list_lookup_fmap, Hj. simpl. f_equal. symmetry.
      apply Hsame; [apply Hsub..|done]; by eapply list_elem_of_lookup_2.
  - intros i r Hr.
    destruct (first_occurrences_first results i r Hr)
      as (j & r' & Hj & Hr' & Heq & Hkept & Hfirst).
    exists j, r'. repeat split; try done.
    + apply Hsame; [by eapply list_elem_of_lookup_2..|done].
    + intros k r'' Hlt Hk Hkey. apply (Hfirst k r'' Hlt Hk).
      apply Hsame; [by eapply list_elem_of_lookup_2..|done].
Qed.

Lemma dedupe_keeps_first_of_each_key_miami :
  ∃ deduped,
    dedupe miami_results = Ok deduped ∧
    deduped = first_occurrences miami_results ∧
    deduped `sublist_of` miami_results ∧
    NoDup (record_key <$> deduped) ∧
    (∀ r1 r2, r1 ∈ miami_results → r2 ∈ miami_results →
       record_key r1 = record_key r2 ↔ same_key r1 r2) ∧
    (∀ i j r1 r2, deduped !! i = Some r1 → deduped !! j = Some r2 →
       same_key r1 r2 → i = j) ∧
    (∀ i r, miami_results !! i = Some r →
       ∃ (j : nat) r', (j ≤ i)%nat ∧ miami_results !! j = Some r' ∧
         same_key r' r ∧ r' ∈ deduped ∧
         ∀ (k : nat) r'', (k < j)%nat → miami_results !! k = Some r'' →
           ¬ same_key r'' r).
Proof.
  apply (dedupe_keeps_first_of_each_key miami_results).
  repeat constructor; eexists _, _, _; repeat split; reflexivity.
Defined.

(** Two records named Miami whose latitudes agree after rounding to 6 places
    collapse to the first; the record at another longitude stays. *)
Example dedupe_miami :
  dedupe miami_results
  = Ok [miami_record (dec 2 1) (dec 2 1); miami_record (dec 3 1) (dec 2 1)] ∧
  same_key (miami_record (dec 2 1) (dec 2 1))
           (miami_record (dec 2 1) (dec 20000001 10000000)) ∧
  record_key (miami_record (dec 2 1) (dec 2 1))
    ≠ record_key (miami_record (dec 3 1) (dec 2 1)).
Proof.
  split; [vm_compute; reflexivity|]. split.
  - apply record_key_same_key; [by eexists _, _, _; repeat split..|].
    rewrite (record_key_fields _ (VStr "Miami") (dec 2 1) (dec 2 1)),
      (record_key_fields _ (VStr "Miami") (dec 20000001 10000000) (dec 2 1))
      by (repeat split; reflexivity).
    do 3 f_equal; apply Qc_is_canon; vm_compute; reflexivity.
  - intros Heq.
    apply (f_equal (λ key, match key with
                           | Ok (_, _, lon) => this lon
                           | Raise _ => 0%Q
                           end)) in Heq.
    vm_compute in Heq. discriminate.
Qed.

(** A record without a number under ["latitude"] stops the pass. *)
Example dedupe_raises :
  dedupe [miami_record (dec 2 1) (dec 2 1);
          <["latitude" := VNone]> (miami_record (dec 2 1) (dec 2 1))]
  = Raise TypeError.
Proof. vm_compute. reflexivity. Qed.

(** C7. Deduplicating the result of a deduplication changes nothing: when
    the first pass returns, the second returns the same list, and when the
    first raises there is no second. *)
Theorem dedupe_idempotent (results : list pydict) :
  dedupe results ≫= dedupe = dedupe results.
Proof.
  destruct (dedupe results) as [deduped|e] eqn:Hfirst; [|done].
  cbn [mbind result_bind].
  pose proof (dedupe_loop_Ok _ _ _ _ Hfirst) as Hkeyed.
  rewrite (dedupe_first_occurrences _ Hkeyed) in Hfirst.
  injection Hfirst as <-.
  rewrite dedupe_first_occurrences by by apply first_occurrences_keyed.
  f_equal. apply first_occurrences_NoDup, first_occurrences_keys_NoDup.
Qed.

(** ** The records of [road_search] *)

(** A record that the loop body emits has ten keys: the nine of the output
    format and ["state/province-ascii"]. *)
Lemma visit_record_keys (reverse_geocode : geocoder) (roadway_name : string)
    (buff_geom : Polygon) (e : element) (result : pydict) :
  visit reverse_geocode roadway_name buff_geom e = Ok (Some result) →
  dom result =
    {[ "roadway"; "placename"; "placename_ascii"; "placename_en"; "placetag";
       "latitude"; "longitude"; "state/province"; "state/province-ascii";
       "country" ]}.
Proof.
  unfold visit. destruct (chosen_area e) as [place|] eqn:Hplace; [|done].
  destruct (chosen_area_shape _ _ Hplace) as (name & ascii & en & lat & lon & ->).
  case_decide; [done|].
  unfold getitem. cbn [list_to_map foldr uncurry fst snd].
  dict_lookup. cbn [mbind result_bind].
  destruct (Point _ _) as [pt|]; cbn [mbind result_bind]; [|done].
  destruct (within pt buff_geom); cbn [negb]; [|done].
  destruct (set_state_country _ _ _) as [[state country]|];
    cbn [mbind result_bind]; [|done].
  dict_lookup. cbn [mbind result_bind].
  intros [= <-]. cbn [list_to_map foldr uncurry fst snd].
  rewrite !dom_insert_L, dom_empty_L. set_solver.
Qed.

Lemma collect_Forall (P : pydict → Prop) (reverse_geocode : geocoder)
    (roadway_name : string) (buff_geom : Polygon) (elements : list element)
    (results out : list pydict) :
  (∀ e result,
     visit reverse_geocode roadway_name buff_geom e = Ok (Some result) →
     P result) →
  Forall P results →
  collect reverse_geocode roadway_name buff_geom elements results = Ok out →
  Forall P out.
Proof.
  intros Hvisit. revert results.
  induction elements as [|e elements IH]; intros results Hres Hout; simpl in Hout.
  { by injection Hout as <-. }
  destruct (visit _ _ _ e) as [[result|]|] eqn:He; simpl in Hout; [| |done].
  - apply (IH (results ++ [result])); [|done].
    apply Forall_app. split; [done|]. apply Forall_singleton. by eapply Hvisit.
  - by apply (IH results).
Qed.

(** Every record that [road_search] returns has these ten keys. *)
Lemma road_search_record_keys (reverse_geocode : geocoder)
    (roadway_name : string) (buff_geom : Polygon) (elements : list element)
    (deduped : list pydict) (r : pydict) :
  road_search reverse_geocode roadway_name buff_geom elements = Ok deduped →
  r ∈ deduped →
  dom r =
    {[ "roadway"; "placename"; "placename_ascii"; "placename_en"; "placetag";
       "latitude"; "longitude"; "state/province"; "state/province-ascii";
       "country" ]}.
Proof.
  unfold road_search.
  destruct (collect _ _ _ _ _) as [results|] eqn:Hcollect; [|done].
  cbn [mbind result_bind]. intros Hdedupe Hr.
  pose proof (dedupe_loop_Ok _ _ _ _ Hdedupe) as Hkeyed.
  rewrite (dedupe_first_occurrences _ Hkeyed) in Hdedupe.
  injection Hdedupe as <-.
  eapply elem_of_submseteq in Hr;
    [|apply sublist_submseteq, first_occurrences_sublist].
  revert r Hr. apply Forall_forall.
  eapply collect_Forall; [|constructor|exact Hcollect].
  intros e result. apply visit_record_keys.
Qed.

(** C3, on one accepted candidate: the record that [road_search] returns has
    the nine keys of the output format and a tenth,
    ["state/province-ascii"]. *)
Lemma road_search_emits_tenth_key :
  road_search florida "I 95" square [miami_node (dec 2 1) (dec 2 1)]
    = Ok [miami_record (dec 2 1) (dec 2 1)] ∧
  dom (miami_record (dec 2 1) (dec 2 1)) =
    {[ "roadway"; "placename"; "placename_ascii"; "placename_en"; "placetag";
       "latitude"; "longitude"; "state/province"; "country" ]}
    ∪ {[ "state/province-ascii" ]}.
Proof.
  split; [vm_compute; reflexivity|].
  unfold miami_record. cbn [list_to_map foldr uncurry fst snd].
  rewrite !dom_insert_L, dom_empty_L. set_solver.
Qed.

(** The whole of [road_search] on three candidates: the node and the way
    both describe Miami at positions that agree after rounding, so only the
    node's record is returned; the way on the boundary is skipped. *)
Example road_search_miami :
  road_search florida "I 95" square
    [miami_node (dec 2 1) (dec 2 1);
     miami_way (dec 0 1) (dec 2 1);
     miami_way (dec 2 1) (dec 20000001 10000000)]
  = Ok [miami_record (dec 2 1) (dec 2 1)].
Proof. vm_compute. reflexivity. Qed.

(** A node without coordinates makes [Point] raise, which ends the search. *)
Example road_search_raises :
  road_search florida "I 95" square
    [{| elem_type := "node"; elem_lat := None; elem_lon := None;
        elem_center := None; elem_tags := None |}]
  = Raise TypeError.
Proof. vm_compute. reflexivity. Qed.

(** ** Rounding of the key *)

(** [round] to 6 places: the 7th place decides, and an exact half (1/128 is
    0.0078125, 3/128 is 0.0234375) goes to the even neighbour. *)
Example round_examples :
  round (dec 257742004 10000000) 6 = dec 257742 10000 ∧
  round (dec 257742006 10000000) 6 = dec 25774201 1000000 ∧
  round (dec 1 128) 6 = dec 7812 1000000 ∧
  round (dec 3 128) 6 = dec 23438 1000000 ∧
  round (dec (-801939) 10000) 6 = dec (-801939) 10000.
Proof. repeat split; apply Qc_is_canon; vm_compute; reflexivity. Qed.

(** Latitudes that differ in the 6th place give different keys: both records
    are kept. *)
Example dedupe_sixth_place :
  dedupe [miami_record (dec (-801939) 10000) (dec 25774200 1000000);
          miami_record (dec (-801939) 10000) (dec 25774201 1000000)]
  = Ok [miami_record (dec (-801939) 10000) (dec 25774200 1000000);
        miami_record (dec (-801939) 10000) (dec 25774201 1000000)].
Proof. vm_compute. reflexivity. Qed.

(** The zone of a longitude: Miami is in zone 17, and longitude 180 gives
    zone 61, which the projection library refuses. *)
Example utm_zone_examples :
  utm_zone_of (dec (-8019) 100) = 17%Z ∧
  utm_zone_of (dec (-180) 1) = 1%Z ∧
  utm_zone_of (dec 180 1) = 61%Z ∧
  create_buffer [(dec 180 1, dec 0 1); (dec 180 1, dec 1 1)] (dec 500 1)
    = Raise CRSError.
Proof. repeat split; vm_compute; reflexivity. Qed.

(** * Further properties *)

(** ** What the loop of [road_search] emits *)

(** A record is emitted only for an element with a place whose position is a
    pair of numbers inside the corridor, and it is made of the fields of the
    place, the roadway name and the answer of the region lookup. *)
Lemma visit_emits (reverse_geocode : geocoder) (roadway_name : string)
    (buff_geom : Polygon) (e : element) (r : pydict) :
  visit reverse_geocode roadway_name buff_geom e = Ok (Some r) →
  ∃ name name_ascii name_en tag x y state country,
    chosen_area e = Some (list_to_map [
      ("placename", VStr name);
      ("placename_ascii", VStr name_ascii);
      ("placename_en", VStr name_en);
      ("placetag", VStr tag);
      ("latitude", VNum y);
      ("longitude", VNum x)
    ]) ∧
    within (x, y) buff_geom = true ∧
    set_state_country reverse_geocode (VNum y) (VNum x) = Ok (state, country) ∧
    r = list_to_map [
      ("roadway", VStr roadway_name);
      ("placename", VStr name);
      ("placename_ascii", VStr name_ascii);
      ("placename_en", VStr name_en);
      ("placetag", VStr tag);
      ("latitude", VNum y);
      ("longitude", VNum x);
      ("state/province", VStr (or_text state ""));
      ("state/province-ascii", VStr (or_text state ""));
      ("country", VStr (or_text country ""))
    ].
Proof.
  unfold visit. destruct (chosen_area e) as [place|] eqn:Hplace; [|done].
  destruct (chosen_area_shape _ _ Hplace) as (name & ascii & en & lat & lon & ->).
  case_decide; [done|].
  unfold getitem. cbn [list_to_map foldr uncurry fst snd].
  dict_lookup. cbn [mbind result_bind].
  destruct lon as [x|], lat as [y|]; try done.
  cbn [number from_option Point float mbind result_bind].
  destruct (within (x, y) buff_geom) eqn:Hin; cbn [negb]; [|done].
  destruct (set_state_country _ _ _) as [[state country]|] eqn:Hsc;
    cbn [mbind result_bind]; [|done].
  dict_lookup. cbn [mbind result_bind].
  intros [= <-].
  by exists name, ascii, en, (default "town" (default ∅ (elem_tags e) !! "place")),
    x, y, state, country.
Qed.

(** What holds of every emitted record holds of every record of the list
    that [road_search] returns. *)
Lemma road_search_Forall (P : pydict → Prop) (reverse_geocode : geocoder)
    (roadway_name : string) (buff_geom : Polygon) (elements : list element)
    (deduped : list pydict) :
  (∀ e r,
     visit reverse_geocode roadway_name buff_geom e = Ok (Some r) → P r) →
  road_search reverse_geocode roadway_name buff_geom elements = Ok deduped →
  Forall P deduped.
Proof.
  intros HP. unfold road_search.
  destruct (collect _ _ _ _ _) as [results|] eqn:Hcollect; [|done].
  cbn [mbind result_bind]. intros Hdedupe.
  pose proof (dedupe_loop_Ok _ _ _ _ Hdedupe) as Hkeyed.
  rewrite (dedupe_first_occurrences _ Hkeyed) in Hdedupe.
  injection Hdedupe as <-.
  apply Forall_forall. intros r Hr.
  eapply elem_of_submseteq in Hr;
    [|apply sublist_submseteq, first_occurrences_sublist].
  revert r Hr. apply Forall_forall.
  by eapply collect_Forall; [|constructor|exact Hcollect].
Qed.

(** X1. Every record that [road_search] returns has numbers under
    ["longitude"] and ["latitude"], and that position passed the containment
    test against the corridor. *)
Theorem road_search_records_within (reverse_geocode : geocoder)
    (roadway_name : string) (buff_geom : Polygon) (elements : list element)
    (deduped : list pydict) (r : pydict) :
  road_search reverse_geocode roadway_name buff_geom elements = Ok deduped →
  r ∈ deduped →
  ∃ x y,
    r !! "longitude" = Some (VNum x) ∧
    r !! "latitude" = Some (VNum y) ∧
    within (x, y) buff_geom = true.
Proof.
  intros Hsearch. revert r. apply Forall_forall.
  eapply road_search_Forall; [|exact Hsearch].
  intros e r (name & ascii & en & tag & x & y & st & co & _ & Hin & _ & ->)%visit_emits.
  exists x, y. cbn [list_to_map foldr uncurry fst snd]. by dict_lookup.
Qed.

Lemma road_search_records_within_miami :
  ∃ x y,
    miami_record (dec 2 1) (dec 2 1) !! "longitude" = Some (VNum x) ∧
    miami_record (dec 2 1) (dec 2 1) !! "latitude" = Some (VNum y) ∧
    within (x, y) square = true.
Proof.
  apply (road_search_records_within florida "I 95" square
           [miami_node (dec 2 1) (dec 2 1);
            miami_way (dec 0 1) (dec 2 1);
            miami_way (dec 2 1) (dec 20000001 10000000)]
           [miami_record (dec 2 1) (dec 2 1)]).
  - vm_compute. reflexivity.
  - left.
Defined.

(** X2. In every record that [road_search] returns, ["roadway"] is the name
    that was searched, ["state/province"] and ["country"] are text (never
    [None]), and ["state/province-ascii"] repeats ["state/province"]
    unchanged. *)
Theorem road_search_record_fields (reverse_geocode : geocoder)
    (roadway_name : string) (buff_geom : Polygon) (elements : list element)
    (deduped : list pydict) (r : pydict) :
  road_search reverse_geocode roadway_name buff_geom elements = Ok deduped →
  r ∈ deduped →
  r !! "roadway" = Some (VStr roadway_name) ∧
  (∃ state country,
     r !! "state/province" = Some (VStr state) ∧
     r !! "country" = Some (VStr country)) ∧
  r !! "state/province-ascii" = r !! "state/province".
Proof.
  intros Hsearch. revert r. apply Forall_forall.
  eapply road_search_Forall; [|exact Hsearch].
  intros e r (name & ascii & en & tag & x & y & st & co & _ & _ & _ & ->)%visit_emits.
  cbn [list_to_map foldr uncurry fst snd].
  split; [by dict_lookup|]. split; [|by dict_lookup].
  eexists _, _. by dict_lookup.
Qed.

Lemma road_search_record_fields_miami :
  miami_record (dec 2 1) (dec 2 1) !! "roadway" = Some (VStr "I 95") ∧
  (∃ state country,
     miami_record (dec 2 1) (dec 2 1) !! "state/province" = Some (VStr state) ∧
     miami_record (dec 2 1) (dec 2 1) !! "country" = Some (VStr country)) ∧
  miami_record (dec 2 1) (dec 2 1) !! "state/province-ascii"
    = miami_record (dec 2 1) (dec 2 1) !! "state/province".
Proof.
  apply (road_search_record_fields florida "I 95" square
           [miami_node (dec 2 1) (dec 2 1)]
           [miami_record (dec 2 1) (dec 2 1)]).
  - vm_compute. reflexivity.
  - left.
Defined.

(** ** When [road_search] raises *)

(** The loop body raises in two places: in [Point], with [TypeError], on a
    place with a coordinate that is [None]; and in the region lookup, which is
    called for a position inside the corridor and whose exception is passed
    on. *)
Lemma visit_raises (reverse_geocode : geocoder) (roadway_name : string)
    (buff_geom : Polygon) (e : element) (err : exn) :
  visit reverse_geocode roadway_name buff_geom e = Raise err →
  ∃ place,
    chosen_area e = Some place ∧
    ((err = TypeError ∧
      (place !! "longitude" = Some VNone ∨ place !! "latitude" = Some VNone))
     ∨ (∃ x y,
          place !! "longitude" = Some (VNum x) ∧
          place !! "latitude" = Some (VNum y) ∧
          within (x, y) buff_geom = true ∧
          reverse_geocode (VNum y) (VNum x) = Raise err)).
Proof.
  unfold visit. destruct (chosen_area e) as [place|] eqn:Hplace; [|done].
  destruct (chosen_area_shape _ _ Hplace) as (name & ascii & en & lat & lon & ->).
  case_decide; [done|].
  unfold getitem. cbn [list_to_map foldr uncurry fst snd].
  dict_lookup. cbn [mbind result_bind].
  destruct lon as [x|], lat as [y|];
    cbn [number from_option Point float mbind result_bind].
  - destruct (within (x, y) buff_geom) eqn:Hin; cbn [negb]; [|done].
    unfold set_state_country.
    destruct (reverse_geocode (VNum y) (VNum x)) as [addr|err'] eqn:Haddr;
      cbn [mbind result_bind]; [by dict_lookup|].
    intros [= <-]. eexists. split; [done|]. right. exists x, y.
    by dict_lookup.
  - intros [= <-]. eexists. split; [done|]. left. split; [done|].
    right. by dict_lookup.
  - intros [= <-]. eexists. split; [done|]. left. split; [done|].
    left. by dict_lookup.
  - intros [= <-]. eexists. split; [done|]. left. split; [done|].
    left. by dict_lookup.
Qed.

(** The loop body returns when the place, if there is one, has numbers for
    both coordinates and, if the position is inside the corridor, the region
    lookup answers there. *)
Lemma visit_returns (reverse_geocode : geocoder) (roadway_name : string)
    (buff_geom : Polygon) (e : element) :
  (∀ place, chosen_area e = Some place →
     ∃ x y, place !! "longitude" = Some (VNum x) ∧
            place !! "latitude" = Some (VNum y) ∧
            (within (x, y) buff_geom = true →
             ∃ addr, reverse_geocode (VNum y) (VNum x) = Ok addr)) →
  ∃ o, visit reverse_geocode roadway_name buff_geom e = Ok o.
Proof.
  intros Hpos.
  destruct (visit reverse_geocode roadway_name buff_geom e) as [o|err] eqn:He;
    [by eexists|].
  apply visit_raises in He as (place & Hplace & Hwhy).
  destruct (Hpos _ Hplace) as (x & y & Hx & Hy & Hanswer).
  destruct Hwhy as [[_ [?|?]]|(x' & y' & Hx' & Hy' & Hin & Hraise)];
    [congruence..|].
  assert (x' = x) as -> by congruence. assert (y' = y) as -> by congruence.
  destruct (Hanswer Hin) as [addr Haddr]. congruence.
Qed.

(** The loop raises exactly the exception of the first element whose body
    raises. *)
Lemma collect_raises (reverse_geocode : geocoder) (roadway_name : string)
    (buff_geom : Polygon) (elements : list element) (results : list pydict)
    (err : exn) :
  collect reverse_geocode roadway_name buff_geom elements results = Raise err →
  ∃ e, e ∈ elements ∧
       visit reverse_geocode roadway_name buff_geom e = Raise err.
Proof.
  revert results.
  induction elements as [|e elements IH]; intros results Hraise; [done|].
  cbn [collect] in Hraise.
  destruct (visit _ _ _ e) as [o|err'] eqn:He; cbn [mbind result_bind] in Hraise.
  - destruct (IH _ Hraise) as (e' & Hin & He'). exists e'. split; [by right|done].
  - injection Hraise as ->. exists e. split; [left|done].
Qed.

Lemma collect_returns (reverse_geocode : geocoder) (roadway_name : string)
    (buff_geom : Polygon) (elements : list element) (results : list pydict) :
  Forall (λ e, ∃ o, visit reverse_geocode roadway_name buff_geom e = Ok o)
         elements →
  ∃ out, collect reverse_geocode roadway_name buff_geom elements results = Ok out.
Proof.
  revert results.
  induction elements as [|e elements IH]; intros results Hall; [by eexists|].
  apply Forall_cons in Hall as [[o Ho] Hall].
  cbn [collect]. rewrite Ho. cbn [mbind result_bind]. by apply IH.
Qed.

(** A loop that returns has returned from the body at every element. *)
Lemma collect_Ok_visits (reverse_geocode : geocoder) (roadway_name : string)
    (buff_geom : Polygon) (elements : list element) (results out : list pydict) :
  collect reverse_geocode roadway_name buff_geom elements results = Ok out →
  Forall (λ e, ∃ o, visit reverse_geocode roadway_name buff_geom e = Ok o)
         elements.
Proof.
  revert results.
  induction elements as [|e elements IH]; intros results Hout; [constructor|].
  cbn [collect] in Hout.
  destruct (visit _ _ _ e) as [o|] eqn:He; cbn [mbind result_bind] in Hout;
    [|done].
  constructor; [by eexists|by eapply IH].
Qed.

(** Every emitted record has a key, so the deduplication pass cannot raise
    on the records of the loop. *)
Lemma visit_record_keyed (reverse_geocode : geocoder) (roadway_name : string)
    (buff_geom : Polygon) (e : element) (r : pydict) :
  visit reverse_geocode roadway_name buff_geom e = Ok (Some r) →
  ∃ key, record_key r = Ok key.
Proof.
  intros (name & ascii & en & tag & x & y & st & co & _ & _ & _ & ->)%visit_emits.
  unfold record_key, getitem. cbn [list_to_map foldr uncurry fst snd].
  dict_lookup. by eexists.
Qed.

Lemma collect_dedupe_returns (reverse_geocode : geocoder) (roadway_name : string)
    (buff_geom : Polygon) (elements : list element) (results : list pydict) :
  collect reverse_geocode roadway_name buff_geom elements [] = Ok results →
  dedupe results = Ok (first_occurrences results).
Proof.
  intros Hcollect. apply dedupe_first_occurrences.
  eapply collect_Forall; [|constructor|exact Hcollect].
  intros e r. apply visit_record_keyed.
Qed.

(** X3. From the candidate loop on, [road_search] raises for one of two
    reasons only.  Either the exception is [TypeError] and some element got a
    place from [chosen_area] with [None] as longitude or latitude (a node
    without ["lat"] or ["lon"], a centre without one of them); or it is the
    exception that the region lookup raised when it was called for a
    candidate whose position is inside the corridor.  The deduplication
    never raises. *)
Theorem road_search_raise_causes (reverse_geocode : geocoder)
    (roadway_name : string) (buff_geom : Polygon) (elements : list element)
    (err : exn) :
  road_search reverse_geocode roadway_name buff_geom elements = Raise err →
  ∃ e place,
    e ∈ elements ∧
    chosen_area e = Some place ∧
    ((err = TypeError ∧
      (place !! "longitude" = Some VNone ∨ place !! "latitude" = Some VNone))
     ∨ (∃ x y,
          place !! "longitude" = Some (VNum x) ∧
          place !! "latitude" = Some (VNum y) ∧
          within (x, y) buff_geom = true ∧
          reverse_geocode (VNum y) (VNum x) = Raise err)).
Proof.
  unfold road_search.
  destruct (collect _ _ _ _ _) as [results|err'] eqn:Hcollect;
    cbn [mbind result_bind].
  - by rewrite (collect_dedupe_returns _ _ _ _ _ Hcollect).
  - intros [= ->].
    apply collect_raises in Hcollect as (e & Hin & He).
    apply visit_raises in He as (place & Hplace & Hwhy).
    by exists e, place.
Qed.

Lemma road_search_raise_causes_offline :
  ∃ e place,
    e ∈ [miami_node (dec 0 1) (dec 2 1); miami_node (dec 2 1) (dec 2 1); bare_node] ∧
    chosen_area e = Some place ∧
    ((RequestException = TypeError ∧
      (place !! "longitude" = Some VNone ∨ place !! "latitude" = Some VNone))
     ∨ (∃ x y,
          place !! "longitude" = Some (VNum x) ∧
          place !! "latitude" = Some (VNum y) ∧
          within (x, y) square = true ∧
          offline (VNum y) (VNum x) = Raise RequestException)).
Proof.
  apply (road_search_raise_causes offline "I 95" square
           [miami_node (dec 0 1) (dec 2 1); miami_node (dec 2 1) (dec 2 1); bare_node]
           RequestException).
  vm_compute. reflexivity.
Defined.

(** Both reasons on the square: without a network the node on the edge is
    skipped before any lookup and the node inside stops the search; with the
    lookup [florida] it is the node without coordinates that stops it. *)
Example road_search_raise_examples :
  road_search offline "I 95" square [miami_node (dec 0 1) (dec 2 1)] = Ok [] ∧
  road_search offline "I 95" square
    [miami_node (dec 0 1) (dec 2 1); miami_node (dec 2 1) (dec 2 1); bare_node]
    = Raise RequestException ∧
  road_search florida "I 95" square [miami_node (dec 2 1) (dec 2 1); bare_node]
    = Raise TypeError.
Proof. repeat split; vm_compute; reflexivity. Qed.

(** X4. From the candidate loop on, [road_search] returns a list exactly
    when every element for which [chosen_area] makes a place has numbers for
    both coordinates and, if that position is inside the corridor, the region
    lookup answers there. *)
Theorem road_search_returns_iff (reverse_geocode : geocoder)
    (roadway_name : string) (buff_geom : Polygon) (elements : list element) :
  (∃ deduped,
     road_search reverse_geocode roadway_name buff_geom elements = Ok deduped)
  ↔
  (∀ e place,
     e ∈ elements → chosen_area e = Some place →
     ∃ x y, place !! "longitude" = Some (VNum x) ∧
            place !! "latitude" = Some (VNum y) ∧
            (within (x, y) buff_geom = true →
             ∃ addr, reverse_geocode (VNum y) (VNum x) = Ok addr)).
Proof.
  split.
  - intros [deduped Hsearch] e place Hin Hplace.
    unfold road_search in Hsearch.
    destruct (collect _ _ _ _ _) as [results|] eqn:Hcollect; [|done].
    apply collect_Ok_visits in Hcollect.
    eapply Forall_forall in Hcollect as [o He]; [|exact Hin].
    unfold visit in He. rewrite Hplace in He.
    destruct (chosen_area_shape _ _ Hplace) as (name & ascii & en & lat & lon & ->).
    case_decide; [done|].
    unfold getitem in He. cbn [list_to_map foldr uncurry fst snd] in *.
    revert He. dict_lookup. cbn [mbind result_bind].
    destruct lon as [x|], lat as [y|]; try done.
    cbn [number from_option Point float mbind result_bind].
    intros He. exists x, y. do 2 (split; [done|]). intros Hwithin.
    rewrite Hwithin in He. cbn [negb] in He. unfold set_state_country in He.
    destruct (reverse_geocode (VNum y) (VNum x)) as [addr|]; [by eexists|done].
  - intros Hpos.
    destruct (collect_returns reverse_geocode roadway_name buff_geom elements [])
      as [results Hcollect].
    { apply Forall_forall. intros e Hin. apply visit_returns. eauto. }
    exists (first_occurrences results). unfold road_search.
    rewrite Hcollect. cbn [mbind result_bind].
    by eapply collect_dedupe_returns.
Qed.

Lemma collect_length (reverse_geocode : geocoder) (roadway_name : string)
    (buff_geom : Polygon) (elements : list element) (results out : list pydict) :
  collect reverse_geocode roadway_name buff_geom elements results = Ok out →
  (length out ≤ length results + length elements)%nat.
Proof.
  revert results.
  induction elements as [|e elements IH]; intros results Hout; cbn [collect] in Hout.
  { injection Hout as <-. simpl. lia. }
  destruct (visit _ _ _ e) as [[r|]|]; cbn [mbind result_bind] in Hout; [| |done].
  - apply IH in Hout. rewrite length_app in Hout. simpl in *. lia.
  - apply IH in Hout. simpl. lia.
Qed.

(** X5. The list that [road_search] returns has no two records with the same
    key (name, latitude and longitude rounded to 6 places), and it is never
    longer than the list of candidate elements. *)
Theorem road_search_no_duplicates (reverse_geocode : geocoder)
    (roadway_name : string) (buff_geom : Polygon) (elements : list element)
    (deduped : list pydict) :
  road_search reverse_geocode roadway_name buff_geom elements = Ok deduped →
  NoDup (record_key <$> deduped) ∧
  (length deduped ≤ length elements)%nat.
Proof.
  unfold road_search.
  destruct (collect _ _ _ _ _) as [results|] eqn:Hcollect; [|done].
  cbn [mbind result_bind].
  rewrite (collect_dedupe_returns _ _ _ _ _ Hcollect). intros [= <-].
  split; [apply first_occurrences_keys_NoDup|].
  apply collect_length in Hcollect.
  pose proof (sublist_length _ _ (first_occurrences_sublist results)).
  simpl in *. lia.
Qed.

Lemma road_search_no_duplicates_miami :
  NoDup (record_key <$> [miami_record (dec 2 1) (dec 2 1)]) ∧
  (length [miami_record (dec 2 1) (dec 2 1)]
   ≤ length [miami_node (dec 2 1) (dec 2 1);
             miami_way (dec 0 1) (dec 2 1);
             miami_way (dec 2 1) (dec 20000001 10000000)])%nat.
Proof.
  apply (road_search_no_duplicates florida "I 95" square).
  vm_compute. reflexivity.
Defined.

(** ** More on [chosen_area] *)

(** X6. [chosen_area] returns [None] exactly for an element that is not a
    node and has no centre, or an empty one; a node always gets a record,
    also when it has no coordinates. *)
Theorem chosen_area_None_iff (elem : element) :
  chosen_area elem = None ↔
  elem_type elem ≠ "node" ∧
  (elem_center elem = None ∨ elem_center elem = Some ∅).
Proof.
  unfold chosen_area. split.
  - destruct (decide (elem_type elem = "node")) as [|Hway]; [done|].
    destruct (elem_center elem) as [center|]; [|auto].
    destruct (decide (center = ∅)) as [->|]; [auto|done].
  - intros [Hway [Hcenter|Hcenter]]; rewrite decide_False, Hcenter by done;
      [done|]. by rewrite decide_True.
Qed.

Lemma or_text_nonempty (a : option string) (b : string) :
  b ≠ "" → or_text a b ≠ "".
Proof. by destruct a as [[|c s]|]. Qed.

(** X7. In a record of [chosen_area] the three names are text.  A non-empty
    ["name"] tag is the ["placename"]; without a ["name:ascii"] tag
    ["placename_ascii"] repeats ["placename"]; and the fallbacks keep the
    names filled: ["placename_ascii"] and ["placename_en"] are non-empty
    whenever ["placename"] is, and ["placename_en"] is empty only if
    ["placename"] is. *)
Theorem chosen_area_names (elem : element) (place : pydict) :
  chosen_area elem = Some place →
  ∃ name name_ascii name_en,
    place !! "placename" = Some (VStr name) ∧
    place !! "placename_ascii" = Some (VStr name_ascii) ∧
    place !! "placename_en" = Some (VStr name_en) ∧
    (∀ s, default ∅ (elem_tags elem) !! "name" = Some s → s ≠ "" → name = s) ∧
    (default ∅ (elem_tags elem) !! "name:ascii" = None → name_ascii = name) ∧
    (name ≠ "" → name_ascii ≠ "" ∧ name_en ≠ "") ∧
    (name_en = "" → name = "").
Proof.
  unfold chosen_area. intros Hplace.
  apply bind_Some in Hplace as ([lat lon] & _ & Hplace).
  injection Hplace as <-.
  eexists _, _, _. cbn [list_to_map foldr uncurry fst snd].
  do 3 (split; [by dict_lookup|]).
  split; [|split; [|split]].
  - intros s -> Hs. by destruct s.
  - by intros ->.
  - intros Hname. split; by apply or_text_nonempty.
  - destruct (default ∅ (elem_tags elem) !! "name:en") as [[|c s]|];
      cbn [or_text]; done.
Qed.

Lemma chosen_area_names_miami :
  ∃ name name_ascii name_en,
    miami_place (dec 2 1) (dec 2 1) !! "placename" = Some (VStr name) ∧
    miami_place (dec 2 1) (dec 2 1) !! "placename_ascii" = Some (VStr name_ascii) ∧
    miami_place (dec 2 1) (dec 2 1) !! "placename_en" = Some (VStr name_en) ∧
    (∀ s, default ∅ (elem_tags (miami_node (dec 2 1) (dec 2 1))) !! "name" = Some s →
          s ≠ "" → name = s) ∧
    (default ∅ (elem_tags (miami_node (dec 2 1) (dec 2 1))) !! "name:ascii" = None →
     name_ascii = name) ∧
    (name ≠ "" → name_ascii ≠ "" ∧ name_en ≠ "") ∧
    (name_en = "" → name = "").
Proof.
  apply (chosen_area_names (miami_node (dec 2 1) (dec 2 1))
           (miami_place (dec 2 1) (dec 2 1))).
  vm_compute. reflexivity.
Defined.

(** ** The zone of [create_buffer] *)

(** Truncation is the floor on numbers that are not negative. *)
Lemma int_floor (x : Qc) : 0 ≤ x → int x = Qfloor x.
Proof.
  intros Hx. unfold int, Qfloor. destruct x as [[n d] Hcanon]. simpl.
  apply Z.quot_div_nonneg; [|lia].
  unfold Qcle, Qle in Hx. simpl in Hx. lia.
Qed.

Lemma zone_quotient (lon : Qc) :
  (this ((lon + Q2Qc 180) / Q2Qc 6) == (this lon + 180) * (1 # 6))%Q.
Proof.
  unfold Qcdiv, Qcinv, Qcmult, Qcplus, Q2Qc. cbn [this].
  rewrite !Qred_correct. reflexivity.
Qed.

(** For a longitude from -180 on, the zone [z] is the 6-degree band that holds
    it: [6 (z - 1) - 180 <= lon < 6 z - 180]. *)
Lemma utm_zone_of_band (lon : Qc) :
  Q2Qc (-180) ≤ lon →
  Q2Qc (inject_Z (6 * (utm_zone_of lon - 1) - 180)) ≤ lon ∧
  lon < Q2Qc (inject_Z (6 * utm_zone_of lon - 180)).
Proof.
  intros Hlon. unfold utm_zone_of.
  pose proof (zone_quotient lon) as Heq.
  assert (0 ≤ (lon + Q2Qc 180) / Q2Qc 6) as Hx.
  { unfold Qcle in *. cbn [this Q2Qc] in Hlon. rewrite Qred_correct in Hlon.
    change (this 0) with 0%Q. lra. }
  rewrite (int_floor _ Hx).
  pose proof (Qfloor_le (this ((lon + Q2Qc 180) / Q2Qc 6))) as Hlo.
  pose proof (Qlt_floor (this ((lon + Q2Qc 180) / Q2Qc 6))) as Hhi.
  set (k := Qfloor (this ((lon + Q2Qc 180) / Q2Qc 6))) in *.
  replace (6 * (k + 1 - 1) - 180)%Z with (6 * k + -180)%Z by lia.
  replace (6 * (k + 1) - 180)%Z with (6 * k + -174)%Z by lia.
  unfold Qcle, Qclt. cbn [this Q2Qc]. rewrite !Qred_correct.
  rewrite !inject_Z_plus, !inject_Z_mult in *.
  change (inject_Z 1) with 1%Q in *. change (inject_Z 6) with 6%Q.
  change (inject_Z (-180)) with (-180)%Q. change (inject_Z (-174)) with (-174)%Q.
  split; lra.
Qed.

(** The zone is a UTM zone for the longitudes from -180 up to, but not
    including, 180; from 180 on it is 61 or more. *)
Lemma utm_zone_of_range (lon : Qc) :
  Q2Qc (-180) ≤ lon →
  (lon < Q2Qc 180 → (1 ≤ utm_zone_of lon ≤ 60)%Z) ∧
  (Q2Qc 180 ≤ lon → (60 < utm_zone_of lon)%Z).
Proof.
  intros Hlon. destruct (utm_zone_of_band lon Hlon) as [Hlo Hhi].
  set (z := utm_zone_of lon) in *.
  unfold Qcle, Qclt in *. cbn [this Q2Qc] in *. rewrite !Qred_correct in *.
  split; [intros Hup; split|intros Hup].
  - assert (inject_Z (-180) < inject_Z (6 * z - 180))%Q as Hz
      by (change (inject_Z (-180)) with (-180)%Q; lra).
    rewrite <-Zlt_Qlt in Hz. lia.
  - assert (inject_Z (6 * (z - 1) - 180) < inject_Z 180)%Q as Hz
      by (change (inject_Z 180) with 180%Q; lra).
    rewrite <-Zlt_Qlt in Hz. lia.
  - assert (inject_Z 180 < inject_Z (6 * z - 180))%Q as Hz
      by (change (inject_Z 180) with 180%Q; lra).
    rewrite <-Zlt_Qlt in Hz. lia.
Qed.



(** X9. A trace whose first longitude is 180 or more gets a zone above 60 and
    [create_buffer] raises the projection library's error, for every radius:
    the eastern end of the longitude range is not served. *)
Theorem create_buffer_refuses_east_end (gpsx : list coord) (first : coord)
    (buffer_m : Qc) :
  (2 ≤ length gpsx)%nat →
  gpsx !! 0%nat = Some first →
  Q2Qc 180 ≤ first.1 →
  create_buffer gpsx buffer_m = Raise CRSError.
Proof.
  intros Hlen Hfirst Hlon.
  assert (Q2Qc (-180) ≤ first.1) as Hlo.
  { unfold Qcle in *. cbn [this Q2Qc] in *. rewrite !Qred_correct in *. lra. }
  destruct (utm_zone_of_range _ Hlo) as [_ Hzone]. specialize (Hzone Hlon).
  destruct gpsx as [|p [|q rest]]; simpl in *; try lia.
  injection Hfirst as ->.
  unfold create_buffer, utm_crs_of_zone. simpl.
  rewrite decide_False; [done|lia].
Qed.

Lemma create_buffer_refuses_east_end_180 :
  create_buffer [(dec 180 1, dec 0 1); (dec 179 1, dec 1 1)] (dec 500 1)
    = Raise CRSError.
Proof.
  apply (create_buffer_refuses_east_end
           [(dec 180 1, dec 0 1); (dec 179 1, dec 1 1)] (dec 180 1, dec 0 1)).
  - simpl. lia.
  - reflexivity.
  - unfold Qcle, Qle. simpl. lia.
Defined.

(** ** More on the search envelope *)

(** X10. Envelopes are nested in the factor: for a geometry with at least one
    vertex and factors [ef1 <= ef2] of any sign, the envelope for [ef1] lies
    inside the envelope for [ef2], side by side. *)
Theorem global_area_nested (geom : Polygon) (ef1 ef2 : Qc) :
  exterior geom ≠ [] →
  ef1 ≤ ef2 →
  ∃ s1 w1 n1 e1 s2 w2 n2 e2,
    global_area geom ef1 = Some (s1, w1, n1, e1) ∧
    global_area geom ef2 = Some (s2, w2, n2, e2) ∧
    s2 ≤ s1 ∧ w2 ≤ w1 ∧ n1 ≤ n2 ∧ e1 ≤ e2.
Proof.
  intros Hne Hef.
  destruct (bounds_nonempty geom Hne) as [[[[minx miny] maxx] maxy] Hb].
  destruct (bounds_ordered _ _ _ _ _ Hb) as [Hx Hy].
  eexists _, _, _, _, _, _, _, _.
  split; [by apply global_area_unfold|].
  split; [by apply global_area_unfold|].
  repeat split; qc_to_q; nra.
Qed.

Lemma global_area_nested_square :
  ∃ s1 w1 n1 e1 s2 w2 n2 e2,
    global_area square (dec (-1) 1) = Some (s1, w1, n1, e1) ∧
    global_area square (dec 2 100) = Some (s2, w2, n2, e2) ∧
    s2 ≤ s1 ∧ w2 ≤ w1 ∧ n1 ≤ n2 ∧ e1 ≤ e2.
Proof.
  apply (global_area_nested square (dec (-1) 1) (dec 2 100)).
  - unfold square. simpl. discriminate.
  - unfold Qcle, Qle. simpl. lia.
Defined.

(** ** Accepted candidates and the search envelope *)

Lemma segments_cons (v w : coord) (ring : list coord) :
  segments (v :: w :: ring) = (v, w) :: segments (w :: ring).
Proof. reflexivity. Qed.

Lemma elem_of_segments (a b : coord) (ring : list coord) :
  (a, b) ∈ segments ring → a ∈ ring ∧ b ∈ ring.
Proof.
  induction ring as [|v [|w ring] IH]; [by intros ?%elem_of_nil..|].
  rewrite segments_cons. intros [[= -> ->]|Hin]%elem_of_cons.
  - split; [left|right; left].
  - destruct (IH Hin). split; by right.
Qed.

(** Along a ring the height of [p] is crossed an odd number of times exactly
    when the first and the last vertex are on different sides of it. *)
Lemma straddles_parity (p v : coord) (ring : list coord) :
  Nat.odd (length (filter (λ s, straddles p s = true) (segments (v :: ring))))
  = xorb (above p v) (above p (default v (last ring))).
Proof.
  revert v. induction ring as [|w ring IH]; intros v.
  { simpl. by destruct (above p v). }
  rewrite segments_cons, filter_cons, last_cons.
  assert (default v (match last ring with Some y => Some y | None => Some w end)
          = default w (last ring)) as -> by by destruct (last ring).
  specialize (IH w). unfold straddles at 1.
  destruct (decide _) as [Hs|Hs]; cbn [length].
  - rewrite Nat.odd_succ, <-Nat.negb_odd, IH.
    apply negb_true_iff, bool_decide_eq_false in Hs.
    destruct (above p v), (above p w), (above p (default w (last ring))); done.
  - rewrite IH. apply not_true_is_false, negb_false_iff, bool_decide_eq_true in Hs.
    rewrite Hs. by destruct (above p w).
Qed.

Lemma straddles_closed_even (p : coord) (ring : list coord) :
  closed_ring ring →
  Nat.odd (length (filter (λ s, straddles p s = true) (segments ring))) = false.
Proof.
  destruct ring as [|v ring]; [done|].
  unfold closed_ring. rewrite last_cons. simpl. intros Hclosed.
  rewrite straddles_parity.
  assert (default v (last ring) = v) as ->
    by (destruct (last ring); simpl; congruence).
  by destruct (above p v).
Qed.

(** A point of the segment from [ax] to [bx], taken at the fraction [n / d]
    with [n] between 0 and [d], is between the bounds of its ends. *)
Lemma Q_between_lower (ax bx n d m : Q) :
  (0 <= n <= d ∧ 0 < d ∨ d <= n <= 0 ∧ d < 0)%Q →
  (m <= ax)%Q → (m <= bx)%Q →
  (m <= ax + n * (bx - ax) * / d)%Q.
Proof.
  intros Hnd Ha Hb.
  assert (~ d == 0)%Q as Hd by (intros Hd; rewrite Hd in Hnd; lra).
  pose proof (Qmult_inv_r d Hd) as Hinv.
  set (i := (/ d)%Q) in *.
  assert (0 <= n * i ∧ 0 <= (d - n) * i)%Q as [Ht0 Ht1].
  { destruct Hnd as [[[? ?] ?]|[[? ?] ?]].
    - assert (0 < i)%Q by nra. split; nra.
    - assert (i < 0)%Q by nra. split; nra. }
  assert (ax + n * (bx - ax) * i - m
          == (d - n) * i * (ax - m) + n * i * (bx - m) + (1 - d * i) * (ax - m))%Q
    as Heq by ring.
  assert (0 <= (d - n) * i * (ax - m))%Q by (apply Qmult_le_0_compat; lra).
  assert (0 <= n * i * (bx - m))%Q by (apply Qmult_le_0_compat; lra).
  rewrite Hinv in Heq. lra.
Qed.

Lemma Q_between_upper (ax bx n d m : Q) :
  (0 <= n <= d ∧ 0 < d ∨ d <= n <= 0 ∧ d < 0)%Q →
  (ax <= m)%Q → (bx <= m)%Q →
  (ax + n * (bx - ax) * / d <= m)%Q.
Proof.
  intros Hnd Ha Hb.
  pose proof (Q_between_lower (- ax) (- bx) n d (- m) Hnd) as Hlow.
  assert (- ax + n * (- bx - - ax) * / d == - (ax + n * (bx - ax) * / d))%Q
    as Heq by ring.
  rewrite Heq in Hlow. lra.
Qed.

(** The abscissa at which the line through a segment meets the height of
    [p], as [crosses_ray] computes it. *)
Lemma crossing_abscissa (p a b : coord) :
  (this (a.1 + (p.2 - a.2) * (b.1 - a.1) / (b.2 - a.2))
   == this a.1 + (this p.2 - this a.2) * (this b.1 - this a.1)
                 * / (this b.2 - this a.2))%Q.
Proof.
  unfold Qcdiv, Qcminus, Qcinv, Qcopp, Qcplus, Qcmult, Q2Qc. cbn [this].
  rewrite !Qred_correct. reflexivity.
Qed.

(** On a segment that straddles the height of [p], [p] is at a fraction of
    the way from [a] to [b]. *)
Lemma straddles_fraction (p a b : coord) :
  straddles p (a, b) = true →
  (0 <= this p.2 - this a.2 <= this b.2 - this a.2 ∧ 0 < this b.2 - this a.2
   ∨ this b.2 - this a.2 <= this p.2 - this a.2 <= 0
     ∧ this b.2 - this a.2 < 0)%Q.
Proof.
  unfold straddles, above. intros Hs%negb_true_iff%bool_decide_eq_false.
  destruct (decide (p.2 < a.2)) as [Ha|Ha], (decide (p.2 < b.2)) as [Hb|Hb].
  - by rewrite !bool_decide_eq_true_2 in Hs.
  - rewrite bool_decide_eq_true_2, bool_decide_eq_false_2 in Hs by done.
    apply Qcnot_lt_le in Hb. unfold Qclt, Qcle in *. right. lra.
  - rewrite bool_decide_eq_false_2, bool_decide_eq_true_2 in Hs by done.
    apply Qcnot_lt_le in Ha. unfold Qclt, Qcle in *. left. lra.
  - by rewrite !bool_decide_eq_false_2 in Hs.
Qed.

(** A segment to the right of [p] is crossed by the ray exactly when it
    straddles the height of [p]; a segment to the left is never crossed. *)
Lemma crosses_ray_right (p a b : coord) (m : Qc) :
  p.1 < m → m ≤ a.1 → m ≤ b.1 →
  crosses_ray p (a, b) = straddles p (a, b).
Proof.
  intros Hp Ha Hb. unfold crosses_ray.
  change (negb (bool_decide (bool_decide (p.2 < a.2) = bool_decide (p.2 < b.2))))
    with (straddles p (a, b)).
  destruct (straddles p (a, b)) eqn:Hs; [|done].
  rewrite bool_decide_eq_true_2; [done|].
  pose proof (Q_between_lower (this a.1) (this b.1) _ _ (this m)
                (straddles_fraction _ _ _ Hs) Ha Hb) as Hlow.
  unfold Qclt, Qcle in *. rewrite crossing_abscissa. lra.
Qed.

Lemma crosses_ray_left (p a b : coord) (m : Qc) :
  m < p.1 → a.1 ≤ m → b.1 ≤ m →
  crosses_ray p (a, b) = false.
Proof.
  intros Hp Ha Hb. unfold crosses_ray.
  change (negb (bool_decide (bool_decide (p.2 < a.2) = bool_decide (p.2 < b.2))))
    with (straddles p (a, b)).
  destruct (straddles p (a, b)) eqn:Hs; [|done].
  rewrite bool_decide_eq_false_2; [done|].
  pose proof (Q_between_upper (this a.1) (this b.1) _ _ (this m)
                (straddles_fraction _ _ _ Hs) Ha Hb) as Hup.
  unfold Qclt, Qcle in *. rewrite crossing_abscissa. lra.
Qed.

Lemma filter_none {A} (P : A → Prop) `{∀ x, Decision (P x)} (l : list A) :
  (∀ x, x ∈ l → ¬ P x) → filter P l = [].
Proof.
  induction l as [|a l IH]; intros Hnone; [done|].
  rewrite filter_cons, decide_False by (apply Hnone; left).
  apply IH. intros x Hx. apply Hnone. by right.
Qed.

(** A point in the interior of a closed ring lies in every box that holds
    the vertices of the ring. *)
Lemma interior_in_box (p : coord) (ring : list coord) (minx miny maxx maxy : Qc) :
  closed_ring ring →
  (∀ v, v ∈ ring → minx ≤ v.1 ∧ v.1 ≤ maxx ∧ miny ≤ v.2 ∧ v.2 ≤ maxy) →
  locate_in_ring p ring = INTERIOR →
  minx ≤ p.1 ∧ p.1 ≤ maxx ∧ miny ≤ p.2 ∧ p.2 ≤ maxy.
Proof.
  intros Hclosed Hbox. unfold locate_in_ring.
  destruct (existsb _ _); [done|].
  destruct (Nat.odd _) eqn:Hodd; [intros _|done].
  assert (∀ a b, (a, b) ∈ segments ring →
            (minx ≤ a.1 ∧ a.1 ≤ maxx ∧ miny ≤ a.2 ∧ a.2 ≤ maxy) ∧
            (minx ≤ b.1 ∧ b.1 ≤ maxx ∧ miny ≤ b.2 ∧ b.2 ≤ maxy)) as Hseg.
  { intros a b [Ha Hb]%elem_of_segments. auto. }
  assert (∀ x y : Qc, ¬ x < y → y ≤ x) as Hnlt by (intros; by apply Qcnot_lt_le).
  repeat split; apply Hnlt; intros Hout.
  - rewrite (filter_ext_elem_of _ (λ s, straddles p s = true)) in Hodd.
    + by rewrite straddles_closed_even in Hodd.
    + intros [a b] Hin. destruct (Hseg _ _ Hin) as [(?&?&?&?) (?&?&?&?)].
      by rewrite (crosses_ray_right p a b minx).
  - rewrite filter_none in Hodd; [done|].
    intros [a b] Hin. destruct (Hseg _ _ Hin) as [(?&?&?&?) (?&?&?&?)].
    by rewrite (crosses_ray_left p a b maxx).
  - rewrite filter_none in Hodd; [done|].
    intros [a b] Hin. destruct (Hseg _ _ Hin) as [(?&?&?&?) (?&?&?&?)].
    rewrite crosses_ray_same_side; [done|].
    unfold above. rewrite !bool_decide_eq_true_2; [done|..];
      eapply Qclt_le_trans; eauto.
  - rewrite filter_none in Hodd; [done|].
    intros [a b] Hin. destruct (Hseg _ _ Hin) as [(?&?&?&?) (?&?&?&?)].
    rewrite crosses_ray_same_side; [done|].
    unfold above. rewrite !bool_decide_eq_false_2; [done|..];
      apply Qcle_not_lt; eapply Qcle_trans; eauto using Qclt_le_weak.
Qed.

(** A point within a polygon with a closed exterior ring lies in the bounds
    of the polygon. *)
Lemma within_in_bounds (pt : coord) (geom : Polygon) (minx miny maxx maxy : Qc) :
  closed_ring (exterior geom) →
  bounds geom = Some (minx, miny, maxx, maxy) →
  within pt geom = true →
  minx ≤ pt.1 ∧ pt.1 ≤ maxx ∧ miny ≤ pt.2 ∧ pt.2 ≤ maxy.
Proof.
  intros Hclosed Hb Hin%bool_decide_eq_true.
  apply (interior_in_box pt (exterior geom)); [done| |].
  - intros [x y] Hv. by apply (bounds_enclose geom).
  - unfold locate in Hin. by destruct (locate_in_ring pt (exterior geom)).
Qed.

(** X11. The search envelope cannot cut off an accepted candidate: when the
    exterior ring of the corridor is closed and the factor is not negative
    ([road_search] uses 0.02), every record that [road_search] returns has its
    position strictly inside the envelope that [global_area] computes for the
    corridor. *)
Theorem road_search_records_in_envelope (reverse_geocode : geocoder)
    (roadway_name : string) (buff_geom : Polygon) (elements : list element)
    (deduped : list pydict) (expand_factor s w n e : Qc) (r : pydict) :
  closed_ring (exterior buff_geom) →
  0 ≤ expand_factor →
  global_area buff_geom expand_factor = Some (s, w, n, e) →
  road_search reverse_geocode roadway_name buff_geom elements = Ok deduped →
  r ∈ deduped →
  ∃ x y,
    r !! "longitude" = Some (VNum x) ∧
    r !! "latitude" = Some (VNum y) ∧
    w < x ∧ x < e ∧ s < y ∧ y < n.
Proof.
  intros Hclosed Hef Harea Hsearch. revert r. apply Forall_forall.
  eapply road_search_Forall; [|exact Hsearch].
  intros e' r (name & ascii & en & tag & x & y & st & co & _ & Hin & _ & ->)%visit_emits.
  exists x, y. cbn [list_to_map foldr uncurry fst snd].
  do 2 (split; [by dict_lookup|]).
  destruct (bounds buff_geom) as [[[[minx miny] maxx] maxy]|] eqn:Hb;
    [|by unfold global_area in Harea; rewrite Hb in Harea].
  rewrite (global_area_unfold _ _ _ _ _ _ Hb) in Harea.
  injection Harea as <- <- <- <-.
  destruct (bounds_ordered _ _ _ _ _ Hb) as [Hox Hoy].
  destruct (within_in_bounds _ _ _ _ _ _ Hclosed Hb Hin) as (?&?&?&?).
  simpl in *. repeat split; qc_to_q; nra.
Qed.

Lemma road_search_records_in_envelope_miami :
  ∃ x y,
    miami_record (dec 2 1) (dec 2 1) !! "longitude" = Some (VNum x) ∧
    miami_record (dec 2 1) (dec 2 1) !! "latitude" = Some (VNum y) ∧
    dec 0 1 - ((dec 4 1 - dec 0 1) * dec 2 100 + Q2Qc (1 # 100)) < x ∧
    x < dec 4 1 + ((dec 4 1 - dec 0 1) * dec 2 100 + Q2Qc (1 # 100)) ∧
    dec 0 1 - ((dec 4 1 - dec 0 1) * dec 2 100 + Q2Qc (1 # 100)) < y ∧
    y < dec 4 1 + ((dec 4 1 - dec 0 1) * dec 2 100 + Q2Qc (1 # 100)).
Proof.
  apply (road_search_records_in_envelope florida "I 95" square
           [miami_node (dec 2 1) (dec 2 1); miami_way (dec 0 1) (dec 2 1)]
           [miami_record (dec 2 1) (dec 2 1)] (dec 2 100)).
  - reflexivity.
  - unfold Qcle, Qle. simpl. lia.
  - vm_compute. reflexivity.
  - vm_compute. reflexivity.
  - left.
Defined.

(** ** The roadway trace *)

Lemma geometry_coords_complete (geometry : list (gmap string Qc))
    (cs : list coord) :
  Forall2 (λ pt c, pt !! "lon" = Some c.1 ∧ pt !! "lat" = Some c.2) geometry cs →
  geometry_coords geometry = Ok cs.
Proof.
  induction 1 as [|pt [lon lat] geometry cs [Hlon Hlat] _ IH]; [done|].
  cbn [geometry_coords]. unfold point_coord. simpl in *.
  by rewrite Hlon, Hlat, IH.
Qed.

Lemma find_roadway_loop_complete (elements : list way)
    (traces : list (list coord)) (gpsx : list coord) :
  Forall2 (λ e cs,
    match e with
    | None => cs = []
    | Some geometry =>
        Forall2 (λ pt c, pt !! "lon" = Some c.1 ∧ pt !! "lat" = Some c.2)
                geometry cs
    end) elements traces →
  find_roadway_loop elements gpsx = Ok (gpsx ++ concat traces).
Proof.
  intros Hall. revert gpsx.
  induction Hall as [|e cs elements traces He _ IH]; intros gpsx.
  { simpl. by rewrite app_nil_r. }
  cbn [find_roadway_loop concat]. destruct e as [geometry|].
  - rewrite (geometry_coords_complete _ _ He). cbn [mbind result_bind].
    by rewrite IH, app_assoc.
  - subst cs. by rewrite IH.
Qed.

(** X12. When every point of every geometry has its ["lon"] and ["lat"],
    [find_roadway] returns the points of all geometries as (longitude,
    latitude) pairs in one list, in the order of the answer: elements without
    a geometry add nothing, and the geometries are joined end to end as they
    come, whether or not they connect. *)
Theorem find_roadway_concat (elements : list way) (traces : list (list coord)) :
  Forall2 (λ e cs,
    match e with
    | None => cs = []
    | Some geometry =>
        Forall2 (λ pt c, pt !! "lon" = Some c.1 ∧ pt !! "lat" = Some c.2)
                geometry cs
    end) elements traces →
  find_roadway elements = Ok (concat traces) ∧
  length (concat traces)
    = sum_list ((λ e, from_option length 0%nat e) <$> elements).
Proof.
  intros Hall. split.
  - unfold find_roadway. by rewrite (find_roadway_loop_complete _ traces).
  - induction Hall as [|e cs elements traces He _ IH]; [done|].
    cbn [concat fmap list_fmap sum_list]. rewrite length_app, IH. f_equal.
    destruct e as [geometry|]; simpl; [|by subst].
    symmetry. by eapply Forall2_length.
Qed.

Lemma find_roadway_concat_miami :
  find_roadway miami_ways
    = Ok (concat [[];
                  [(dec (-8019) 100, dec 2576 100); (dec (-8020) 100, dec 2580 100)];
                  [(dec (-8020) 100, dec 2580 100); (dec (-8021) 100, dec 2585 100)]]) ∧
  length (concat [[];
                  [(dec (-8019) 100, dec 2576 100); (dec (-8020) 100, dec 2580 100)];
                  [(dec (-8020) 100, dec 2580 100); (dec (-8021) 100, dec 2585 100)]])
    = sum_list ((λ e, from_option length 0%nat e) <$> miami_ways).
Proof.
  apply (find_roadway_concat miami_ways).
  repeat constructor.
Defined.

(** The reading of the answer raises nothing but [KeyError]. *)
Lemma find_roadway_loop_raises (elements : list way) (gpsx : list coord)
    (err : exn) :
  find_roadway_loop elements gpsx = Raise err → ∃ key, err = KeyError key.
Proof.
  revert gpsx. induction elements as [|[geometry|] elements IH]; intros gpsx;
    cbn [find_roadway_loop]; [done| |by apply IH].
  destruct (geometry_coords geometry) as [cs|err'] eqn:Hg;
    cbn [mbind result_bind]; [by apply IH|].
  intros [= <-]. clear IH. revert err' Hg.
  induction geometry as [|pt geometry IHg]; intros err' Hg; [done|].
  cbn [geometry_coords] in Hg. unfold point_coord in Hg.
  destruct (pt !! "lon"); [|injection Hg as <-; by eexists].
  destruct (pt !! "lat"); [|injection Hg as <-; by eexists].
  cbn [mbind result_bind] in Hg.
  destruct (geometry_coords geometry); cbn [mbind result_bind] in Hg; [done|].
  injection Hg as <-. by eapply IHg.
Qed.

(** X13. From the roadway answer to the corridor, [road_search] raises
    [ValueError] exactly when the answer holds no point at all, and it never
    raises [IndexError]: the guard on the empty trace keeps [create_buffer]
    from reading the first point of an empty list. *)
Theorem road_search_corridor_empty_trace (elements : list way) (buffer_m : Qc) :
  (road_search_corridor elements buffer_m = Raise ValueError
   ↔ find_roadway elements = Ok []) ∧
  road_search_corridor elements buffer_m ≠ Raise IndexError.
Proof.
  unfold road_search_corridor.
  destruct (find_roadway elements) as [gpsx|err] eqn:Hfind;
    cbn [mbind result_bind].
  - destruct (decide (gpsx = [])) as [->|Hne]; [done|].
    destruct gpsx as [|p [|q rest]]; [done|done|].
    unfold create_buffer, utm_crs_of_zone. simpl.
    case_decide; split; done.
  - apply find_roadway_loop_raises in Hfind as [key ->].
    split; [|done]. split; done.
Qed.

(** ** The region lookup *)

Ltac strip_region :=
  unfold without_region; cbn [list_to_map foldr uncurry fst snd];
  repeat first
    [ rewrite delete_insert_eq
    | rewrite delete_insert_ne by done
    | rewrite delete_empty ].

(** The loop body depends on the answers of the region lookup only in the
    three fields that the lookup fills. *)
Lemma visit_region_only (g1 g2 : geocoder) (roadway_name : string)
    (buff_geom : Polygon) (e : element) :
  fail_alike g1 g2 →
  match visit g1 roadway_name buff_geom e, visit g2 roadway_name buff_geom e with
  | Ok (Some r1), Ok (Some r2) => without_region r1 = without_region r2
  | Ok None, Ok None => True
  | Raise err1, Raise err2 => err1 = err2
  | _, _ => False
  end.
Proof.
  intros Halike.
  unfold visit. destruct (chosen_area e) as [place|] eqn:Hplace; [|done].
  destruct (chosen_area_shape _ _ Hplace) as (name & ascii & en & lat & lon & ->).
  case_decide; [done|].
  unfold getitem. cbn [list_to_map foldr uncurry fst snd].
  dict_lookup. cbn [mbind result_bind].
  destruct lon as [x|], lat as [y|];
    cbn [number from_option Point float mbind result_bind]; try done.
  destruct (within (x, y) buff_geom); cbn [negb]; [|done].
  unfold set_state_country. specialize (Halike (VNum y) (VNum x)).
  destruct (g1 (VNum y) (VNum x)) as [addr1|], (g2 (VNum y) (VNum x)) as [addr2|];
    cbn [mbind result_bind]; try done.
  all: dict_lookup; cbn [mbind result_bind]; by strip_region.
Qed.

Lemma without_region_key (r1 r2 : pydict) :
  without_region r1 = without_region r2 → record_key r1 = record_key r2.
Proof.
  intros Heq.
  assert (∀ r k, k ≠ "country" → k ≠ "state/province-ascii" →
                 k ≠ "state/province" → r !! k = without_region r !! k) as Hkeep.
  { intros r k ???. unfold without_region. by rewrite !lookup_delete_ne. }
  unfold record_key, getitem.
  rewrite (Hkeep r1 "placename"), (Hkeep r1 "latitude"), (Hkeep r1 "longitude"),
    (Hkeep r2 "placename"), (Hkeep r2 "latitude"), (Hkeep r2 "longitude") by done.
  by rewrite Heq.
Qed.

Lemma collect_region_only (g1 g2 : geocoder) (roadway_name : string)
    (buff_geom : Polygon) (elements : list element) (acc1 acc2 : list pydict) :
  fail_alike g1 g2 →
  Forall2 (λ r1 r2, without_region r1 = without_region r2) acc1 acc2 →
  match collect g1 roadway_name buff_geom elements acc1,
        collect g2 roadway_name buff_geom elements acc2 with
  | Ok out1, Ok out2 =>
      Forall2 (λ r1 r2, without_region r1 = without_region r2) out1 out2
  | Raise err1, Raise err2 => err1 = err2
  | _, _ => False
  end.
Proof.
  intros Halike. revert acc1 acc2.
  induction elements as [|e elements IH]; intros acc1 acc2 Hacc; [done|].
  cbn [collect].
  pose proof (visit_region_only g1 g2 roadway_name buff_geom e Halike) as He.
  destruct (visit g1 _ _ e) as [[r1|]|], (visit g2 _ _ e) as [[r2|]|];
    try done; cbn [mbind result_bind]; apply IH; [|done].
  apply Forall2_app; [done|]. by constructor.
Qed.

Lemma first_occurrences_region_only (l1 l2 : list pydict) :
  Forall2 (λ r1 r2, without_region r1 = without_region r2) l1 l2 →
  Forall2 (λ r1 r2, without_region r1 = without_region r2)
          (first_occurrences l1) (first_occurrences l2).
Proof.
  revert l2. induction l1 as [|r1 l1 IH] using rev_ind; intros l2 Hall.
  { apply Forall2_nil_inv_l in Hall as ->. constructor. }
  apply Forall2_app_inv_l in Hall as (l2' & tail & Hl & Htail & ->).
  apply Forall2_cons_inv_l in Htail as (r2 & nil & Hr & ->%Forall2_nil_inv_l & ->).
  rewrite !first_occurrences_snoc.
  assert (record_key <$> l1 = record_key <$> l2') as Hkeys.
  { clear -Hl. induction Hl as [|a b la lb Hab _ IHl]; [done|].
    cbn [fmap list_fmap]. by rewrite (without_region_key _ _ Hab), IHl. }
  rewrite Hkeys, (without_region_key _ _ Hr).
  apply Forall2_app; [by apply IH|].
  case_decide; by repeat constructor.
Qed.

(** X14. The answers of the region lookup decide nothing but the region
    fields: with two lookups that fail alike (at every position both answer,
    or both raise the same exception), [road_search] either raises the same
    exception with both, or returns two lists of the same length whose
    records, taken in order, are equal once ["state/province"],
    ["state/province-ascii"] and ["country"] are removed.  Which candidates
    are kept, and which duplicates are dropped, does not depend on what the
    lookup answers. *)
Theorem road_search_region_only (g1 g2 : geocoder) (roadway_name : string)
    (buff_geom : Polygon) (elements : list element) :
  fail_alike g1 g2 →
  match road_search g1 roadway_name buff_geom elements,
        road_search g2 roadway_name buff_geom elements with
  | Ok deduped1, Ok deduped2 =>
      length deduped1 = length deduped2 ∧
      without_region <$> deduped1 = without_region <$> deduped2
  | Raise err1, Raise err2 => err1 = err2
  | _, _ => False
  end.
Proof.
  intros Halike. unfold road_search.
  pose proof (collect_region_only g1 g2 roadway_name buff_geom elements [] []
                Halike ltac:(constructor)) as Hcollect.
  destruct (collect g1 _ _ _ _) as [results1|] eqn:H1,
           (collect g2 _ _ _ _) as [results2|] eqn:H2;
    try done; cbn [mbind result_bind].
  rewrite (collect_dedupe_returns _ _ _ _ _ H1),
    (collect_dedupe_returns _ _ _ _ _ H2).
  apply first_occurrences_region_only in Hcollect.
  split; [by eapply Forall2_length|].
  induction Hcollect as [|a b la lb Hab _ IHl]; [done|].
  cbn [fmap list_fmap]. by rewrite Hab, IHl.
Qed.

Lemma road_search_region_only_miami :
  match road_search florida "I 95" square
          [miami_node (dec 2 1) (dec 2 1); miami_way (dec 3 1) (dec 1 1)],
        road_search nowhere "I 95" square
          [miami_node (dec 2 1) (dec 2 1); miami_way (dec 3 1) (dec 1 1)] with
  | Ok deduped1, Ok deduped2 =>
      length deduped1 = length deduped2 ∧
      without_region <$> deduped1 = without_region <$> deduped2
  | Raise err1, Raise err2 => err1 = err2
  | _, _ => False
  end.
Proof.
  apply (road_search_region_only florida nowhere "I 95" square
           [miami_node (dec 2 1) (dec 2 1); miami_way (dec 3 1) (dec 1 1)]).
  intros lat lon. exact I.
Defined.

(** A place made from an element with numeric coordinates has numbers for
    its position. *)
Lemma chosen_area_numbered (e : element) (place : pydict) :
  numbered e →
  chosen_area e = Some place →
  ∃ x y, place !! "longitude" = Some (VNum x) ∧
         place !! "latitude" = Some (VNum y).
Proof.
  intros [Hnode Hway]. unfold chosen_area.
  destruct (decide (elem_type e = "node")) as [Hn|Hn].
  - destruct (Hnode Hn) as [[x ->] [y ->]]. intros [= <-].
    exists x, y. cbn [list_to_map foldr uncurry fst snd]. by dict_lookup.
  - destruct (elem_center e) as [center|]; [|done].
    case_decide as Hc; [done|].
    destruct (Hway center Hn eq_refl Hc) as [[x ->] [y ->]]. intros [= <-].
    exists x, y. cbn [list_to_map foldr uncurry fst snd]. by dict_lookup.
Qed.

(** X15. When every call of the region lookup is answered with a status other
    than 200, [reverse_geocode] gives the empty answer at every position
    without decoding the body, and the search is not aborted: if the elements
    have numbers wherever [chosen_area] reads a coordinate, [road_search]
    returns its records, each with the empty text under ["state/province"],
    ["state/province-ascii"] and ["country"]. *)
Theorem road_search_lookup_unavailable
    (http_get : pyval → pyval → result response)
    (roadway_name : string) (buff_geom : Polygon) (elements : list element) :
  (∀ lat lon, ∃ res, http_get lat lon = Ok res ∧ res_status res ≠ 200%Z) →
  Forall numbered elements →
  (∀ lat lon, reverse_geocode http_get lat lon = Ok ∅) ∧
  ∃ deduped,
    road_search (reverse_geocode http_get) roadway_name buff_geom elements
      = Ok deduped ∧
    ∀ r, r ∈ deduped →
      r !! "state/province" = Some (VStr "") ∧
      r !! "state/province-ascii" = Some (VStr "") ∧
      r !! "country" = Some (VStr "").
Proof.
  intros Hfail Hpos.
  assert (∀ lat lon, reverse_geocode http_get lat lon = Ok ∅) as Hempty.
  { intros lat lon. unfold reverse_geocode.
    destruct (Hfail lat lon) as (res & -> & Hstatus). cbn [mbind result_bind].
    by rewrite decide_True. }
  split; [done|].
  destruct (collect_returns (reverse_geocode http_get) roadway_name buff_geom
              elements []) as [results Hcollect].
  { eapply Forall_impl; [exact Hpos|]. intros e He. apply visit_returns.
    intros place Hplace.
    destruct (chosen_area_numbered e place He Hplace) as (x & y & ? & ?).
    exists x, y. do 2 (split; [done|]). intros _. by eexists. }
  assert (road_search (reverse_geocode http_get) roadway_name buff_geom elements
          = Ok (first_occurrences results)) as Hsearch.
  { unfold road_search. rewrite Hcollect. cbn [mbind result_bind].
    by eapply collect_dedupe_returns. }
  eexists. split; [exact Hsearch|].
  apply Forall_forall. eapply road_search_Forall; [|exact Hsearch].
  intros e r (name & ascii & en & tag & x & y & st & co & _ & _ & Hsc & ->)%visit_emits.
  unfold set_state_country in Hsc. rewrite Hempty in Hsc.
  cbn [mbind result_bind] in Hsc. rewrite !lookup_empty in Hsc.
  injection Hsc as <- <-.
  cbn [list_to_map foldr uncurry fst snd or_text or_none]. by dict_lookup.
Qed.

Lemma road_search_lookup_unavailable_miami :
  (∀ lat lon, reverse_geocode unavailable lat lon = Ok ∅) ∧
  ∃ deduped,
    road_search (reverse_geocode unavailable) "I 95" square
      [miami_node (dec 2 1) (dec 2 1)] = Ok deduped ∧
    ∀ r, r ∈ deduped →
      r !! "state/province" = Some (VStr "") ∧
      r !! "state/province-ascii" = Some (VStr "") ∧
      r !! "country" = Some (VStr "").
Proof.
  apply (road_search_lookup_unavailable unavailable "I 95" square
           [miami_node (dec 2 1) (dec 2 1)]).
  - intros lat lon. eexists. split; [reflexivity|]. simpl. lia.
  - repeat constructor; simpl; try done; by eexists.
Defined.

(** With the lookup that answers 503 everywhere, the node inside the square
    is kept, with no region. *)
Example road_search_unavailable_miami :
  road_search (reverse_geocode unavailable) "I 95" square
    [miami_node (dec 2 1) (dec 2 1)]
  = Ok [list_to_map [
      ("roadway", VStr "I 95");
      ("placename", VStr "Miami");
      ("placename_ascii", VStr "Miami");
      ("placename_en", VStr "Miami");
      ("placetag", VStr "town");
      ("latitude", VNum (dec 2 1));
      ("longitude", VNum (dec 2 1));
      ("state/province", VStr "");
      ("state/province-ascii", VStr "");
      ("country", VStr "")
    ]].
Proof. vm_compute. reflexivity. Qed.

(** ** The search area around the city *)


(** On the answer for Miami the box holds the position 25.7741728,
    -80.19362 strictly; an answer with status 404, or without a result, is
    refused. *)
Example set_city_miami :
  (∃ s w n e,
     set_city miami_numerals 200 miami_answer = Ok (s, w, n, e) ∧
     s < dec 257741728 10000000 ∧ dec 257741728 10000000 < n ∧
     w < dec (-8019362) 100000 ∧ dec (-8019362) 100000 < e) ∧
  set_city miami_numerals 404 miami_answer = Raise ValueError ∧
  set_city miami_numerals 200 [] = Raise ValueError.
Proof.
  split; [|split; reflexivity].
  eexists _, _, _, _. split; [reflexivity|]. repeat split.
Qed.

(** ** The name of the output file *)

Lemma string_chars_app (s1 s2 : string) :
  String.list_ascii_of_string (s1 +:+ s2)
  = String.list_ascii_of_string s1 ++ String.list_ascii_of_string s2.
Proof. induction s1 as [|c s1 IH]; simpl; [done|]. by rewrite IH. Qed.

Lemma replace_removes (old new : ascii) (s : string) :
  old ≠ new → old ∉ String.list_ascii_of_string (replace old new s).
Proof.
  intros Hne. induction s as [|c s IH]; simpl; [apply not_elem_of_nil|].
  apply not_elem_of_cons. split; [|done]. by case_decide.
Qed.

Lemma replace_absent (old new : ascii) (s : string) :
  old ∉ String.list_ascii_of_string s → replace old new s = s.
Proof.
  induction s as [|c s IH]; simpl; [done|].
  intros [Hc Hs]%not_elem_of_cons. by rewrite decide_False, IH.
Qed.

(** X17. The name of the output file never holds a blank, whatever the
    roadway, city and state; when none of the three holds a blank the name is
    the three joined by underscores, with [.json] at the end. *)
Theorem filename_no_blank (roadway city state : string) :
  (" "%char ∉ String.list_ascii_of_string (filename roadway city state)) ∧
  ((" "%char ∉ String.list_ascii_of_string roadway) →
   (" "%char ∉ String.list_ascii_of_string city) →
   (" "%char ∉ String.list_ascii_of_string state) →
   filename roadway city state
   = roadway +:+ "_" +:+ city +:+ "_" +:+ state +:+ ".json").
Proof.
  unfold filename. split.
  - rewrite !string_chars_app, !not_elem_of_app.
    repeat split; try (by apply replace_removes).
    + by intros ?%list_elem_of_singleton.
    + by intros ?%list_elem_of_singleton.
    + simpl. rewrite !not_elem_of_cons. repeat split; try done.
      apply not_elem_of_nil.
  - intros Hr Hc Hs. by rewrite !replace_absent.
Qed.

Example filename_miami :
  filename "I 95" "Miami Beach" "Florida" = "I_95_Miami_Beach_Florida.json".
Proof. reflexivity. Qed.

(** ** Deduplication of distinct records *)

(** X18. The deduplication pass returns its input unchanged when the records
    have keys and no two of them share a key. *)
Theorem dedupe_distinct (results : list pydict) :
  Forall (λ r, ∃ key, record_key r = Ok key) results →
  NoDup (record_key <$> results) →
  dedupe results = Ok results.
Proof.
  intros Hkeyed Hdistinct.
  by rewrite dedupe_first_occurrences, first_occurrences_NoDup.
Qed.

Lemma dedupe_distinct_miami :
  dedupe [miami_record (dec 2 1) (dec 2 1); miami_record (dec 3 1) (dec 2 1)]
  = Ok [miami_record (dec 2 1) (dec 2 1); miami_record (dec 3 1) (dec 2 1)].
Proof.
  apply (dedupe_distinct
           [miami_record (dec 2 1) (dec 2 1); miami_record (dec 3 1) (dec 2 1)]).
  - repeat constructor; eexists; vm_compute; reflexivity.
  - apply (bool_decide_unpack _). vm_compute. exact I.
Defined.

(** ** More candidates *)

Lemma first_occurrences_prefix (l1 l2 : list pydict) :
  first_occurrences l1 `prefix_of` first_occurrences (l1 ++ l2).
Proof.
  induction l2 as [|r l2 IH] using rev_ind.
  { by rewrite app_nil_r. }
  rewrite app_assoc, first_occurrences_snoc.
  by apply prefix_app_r.
Qed.

Lemma collect_app (reverse_geocode : geocoder) (roadway_name : string)
    (buff_geom : Polygon) (elements1 elements2 : list element)
    (results : list pydict) :
  collect reverse_geocode roadway_name buff_geom (elements1 ++ elements2) results
  = collect reverse_geocode roadway_name buff_geom elements1 results
    ≫= collect reverse_geocode roadway_name buff_geom elements2.
Proof.
  revert results.
  induction elements1 as [|e elements1 IH]; intros results; [done|].
  cbn [app collect].
  destruct (visit _ _ _ e); cbn [mbind result_bind]; [apply IH|done].
Qed.

Lemma collect_extends (reverse_geocode : geocoder) (roadway_name : string)
    (buff_geom : Polygon) (elements : list element) (results out : list pydict) :
  collect reverse_geocode roadway_name buff_geom elements results = Ok out →
  ∃ more, out = results ++ more.
Proof.
  revert results.
  induction elements as [|e elements IH]; intros results Hout; cbn [collect] in Hout.
  { injection Hout as <-. exists []. by rewrite app_nil_r. }
  destruct (visit _ _ _ e) as [[r|]|]; cbn [mbind result_bind] in Hout; [| |done].
  - destruct (IH _ Hout) as [more ->]. exists (r :: more). by rewrite <-app_assoc.
  - by apply IH.
Qed.

(** X19. Candidates that come later in the answer cannot change what
    [road_search] made of the earlier ones: when it returns a list for the
    elements [elements1 ++ elements2], it returns a list for [elements1] too,
    and that list is the beginning of the longer one. *)
Theorem road_search_prefix (reverse_geocode : geocoder) (roadway_name : string)
    (buff_geom : Polygon) (elements1 elements2 : list element)
    (deduped : list pydict) :
  road_search reverse_geocode roadway_name buff_geom (elements1 ++ elements2)
    = Ok deduped →
  ∃ deduped1,
    road_search reverse_geocode roadway_name buff_geom elements1 = Ok deduped1 ∧
    deduped1 `prefix_of` deduped.
Proof.
  unfold road_search. rewrite collect_app.
  destruct (collect _ _ _ elements1 _) as [results1|] eqn:H1;
    cbn [mbind result_bind]; [|done].
  destruct (collect _ _ _ elements2 _) as [results|] eqn:H2;
    cbn [mbind result_bind]; [|done].
  destruct (collect_extends _ _ _ _ _ _ H2) as [more ->].
  assert (collect reverse_geocode roadway_name buff_geom
            (elements1 ++ elements2) [] = Ok (results1 ++ more)) as H12.
  { by rewrite collect_app, H1. }
  rewrite (collect_dedupe_returns _ _ _ _ _ H12),
    (collect_dedupe_returns _ _ _ _ _ H1).
  intros [= <-]. eexists. split; [done|]. apply first_occurrences_prefix.
Qed.

Lemma road_search_prefix_miami :
  ∃ deduped1,
    road_search florida "I 95" square [miami_node (dec 2 1) (dec 2 1)]
      = Ok deduped1 ∧
    deduped1 `prefix_of`
      [miami_record (dec 2 1) (dec 2 1); miami_record (dec 3 1) (dec 2 1)].
Proof.
  apply (road_search_prefix florida "I 95" square
           [miami_node (dec 2 1) (dec 2 1)]
           [miami_way (dec 2 1) (dec 20000001 10000000);
            miami_node (dec 3 1) (dec 2 1)]).
  vm_compute. reflexivity.
Defined.
